(** * Vitess: the comparison kernel of the evaluation engine and the VDiff
    bookkeeping

    The first part embeds [go/vt/vtgate/evalengine/comparisons.go]: operand
    evaluation, NULL propagation and the dispatch to the comparison
    operators.  Go functions that return [(value, error)] are modelled as
    returning a pair whose second component is an [option error]; a Go
    [panic] is a separate outcome.  Sub-expressions are arbitrary
    implementations of the [Expr] interface, so they are modelled as
    computations over an abstract process state. *)

From Stdlib Require Import ZArith Ascii.
From stdpp Require Import base decidable option list strings numbers sorting pretty gmap.

Local Open Scope string_scope.
Local Open Scope Z_scope.

(** ** Outcomes of Go code *)

(** A Go call either returns or panics with a message. *)
Inductive go (A : Type) : Type :=
| Return (a : A)
| Panics (msg : string).
Arguments Return {A} a.
Arguments Panics {A} msg.

Module Evalengine.

(** Modelled from the spec: the type tags of package [sqltypes] (its
    declarations are not part of the sources at hand).  The spec lists NULL,
    signed and unsigned integers, floating point, fixed-point decimal, text,
    binary, date, time and tuple; [Int32] is the tag the source gives to
    boolean results. *)
Inductive querypb_Type : Type :=
| Null | Int32 | Int64 | Uint64 | Float64 | Decimal
| VarChar | VarBinary | Date | Time | Tuple.

#[export] Instance querypb_Type_eq_dec : EqDecision querypb_Type.
Proof. solve_decision. Defined.

Definition Type_INT32 : querypb_Type := Int32.

(** Modelled from the spec: [sqltypes.IsIntegral], [sqltypes.IsFloat] and
    [sqltypes.IsText] classify the tags above. *)
Definition IsIntegral (t : querypb_Type) : bool :=
  match t with Int32 | Int64 | Uint64 => true | _ => false end.

Definition IsFloat (t : querypb_Type) : bool :=
  match t with Float64 => true | _ => false end.

Definition IsText (t : querypb_Type) : bool :=
  match t with VarChar => true | _ => false end.

(** Modelled from the spec: an [EvalResult] is a tagged pair of a type tag
    and a payload.  The struct is declared elsewhere in the package; this
    file reads [typ] and writes [typ] and [ival] (an int64); the rest of the
    payload is kept as raw bytes. *)
Record EvalResult : Type := mkEvalResult {
  typ : querypb_Type;
  ival : Z;
  bytes : string
}.

(** [EvalResult{}]: every field at its zero value. *)
Definition EvalResult_zero : EvalResult :=
  {| typ := Null; ival := 0; bytes := "" |}.

(** Error codes of [vtrpcpb] and errors built by [vterrors.Errorf]. *)
Inductive vtrpcpb_Code : Type := Code_INTERNAL | Code_UNKNOWN.

Record error : Type := Errorf {
  err_code : vtrpcpb_Code;
  err_message : string
}.

(** The thirteen operator structs, all empty, told apart by their type. *)
Inductive ComparisonOp : Type :=
| EqualOp | NotEqualOp | NullSafeEqualOp
| LessThanOp | LessEqualOp | GreaterThanOp | GreaterEqualOp
| InOp | NotInOp | LikeOp | NotLikeOp | RegexpOp | NotRegexpOp.

#[export] Instance ComparisonOp_eq_dec : EqDecision ComparisonOp.
Proof. solve_decision. Defined.

Definition resultTrue : EvalResult := {| typ := Int32; ival := 1; bytes := "" |}.
Definition resultFalse : EvalResult := {| typ := Int32; ival := 0; bytes := "" |}.
Definition resultNull : EvalResult := {| typ := Null; ival := 0; bytes := "" |}.

Definition hasNullEvalResult (l r : EvalResult) : bool :=
  bool_decide (typ l = Null) || bool_decide (typ r = Null).

Definition evalResultsAreString (l r : EvalResult) : bool :=
  IsText (typ l) && IsText (typ r).

Definition evalResultsAreInteger (l r : EvalResult) : bool :=
  IsIntegral (typ l) && IsIntegral (typ r).

Definition needsDecimalHandling (l r : EvalResult) : bool :=
  bool_decide (typ l = Decimal)
    && (bool_decide (typ r = Decimal) || IsIntegral (typ r))
  || bool_decide (typ r = Decimal)
    && (bool_decide (typ l = Decimal) || IsIntegral (typ l)).

Definition needsFloatHandling (l r : EvalResult) : bool :=
  bool_decide (typ l = Decimal) && IsFloat (typ r)
  || bool_decide (typ r = Decimal) && IsFloat (typ l).

Section Kernel.

(** The observable state of the process in which expressions run, and the
    environment handed to [Evaluate]. *)
Context {W : Type} {ExpressionEnv : Type}.

(** [compareNumeric] and [makeNumeric] live in another file of the
    package; the kernel is parametric in them. *)
Variable compareNumeric : EvalResult -> EvalResult -> go (Z * option error).
Variable makeNumeric : EvalResult -> EvalResult.

(** Stateful Go code: a state transformer that may panic. *)
Definition M (A : Type) : Type := W -> go A * W.

Definition ret {A} (a : A) : M A := fun w => (Return a, w).

Definition bind {A B} (m : M A) (k : A -> M B) : M B :=
  fun w =>
    match m w with
    | (Return a, w') => k a w'
    | (Panics msg, w') => (Panics msg, w')
    end.

Definition lift {A} (r : go A) : M A := fun w => (r, w).

(** The [Expr] interface. *)
Record Expr : Type := mkExpr {
  Evaluate : ExpressionEnv -> M (EvalResult * option error);
  Expr_String : string
}.

Record ComparisonExpr : Type := mkComparisonExpr {
  Op : option ComparisonOp;
  Left : Expr;
  Right : Expr
}.

Definition evaluateComparisonExprs (c : ComparisonExpr) (env : ExpressionEnv)
  : M (EvalResult * EvalResult * option error) :=
  bind (Evaluate (Left c) env) (fun '(lVal, err) =>
    match err with
    | Some e => ret (EvalResult_zero, EvalResult_zero, Some e)
    | None =>
      bind (Evaluate (Right c) env) (fun '(rVal, err) =>
        match err with
        | Some e => ret (EvalResult_zero, EvalResult_zero, Some e)
        | None => ret (lVal, rVal, None)
        end)
    end).

Definition executeComparison (lVal rVal : EvalResult) : go (Z * option error) :=
  if evalResultsAreString lVal rVal then
    Panics "not implemented yet"
  else if evalResultsAreInteger lVal rVal || needsFloatHandling lVal rVal then
    compareNumeric lVal rVal
  else if needsDecimalHandling lVal rVal then
    Panics "not implemented yet"
  else
    compareNumeric (makeNumeric lVal) (makeNumeric rVal).

(** The shape shared by the six implemented [IsTrue] methods: run the
    ordered comparison and test its sign. *)
Definition isTrueBy (test : Z -> bool) (left right : EvalResult)
  : go (bool * option error) :=
  match executeComparison left right with
  | Panics msg => Panics msg
  | Return (numeric, Some err) => Return (false, Some err)
  | Return (numeric, None) => Return (test numeric, None)
  end.

(** The shape shared by the six implemented [Evaluate] methods. *)
Definition evaluateBy (isTrue : EvalResult -> EvalResult -> go (bool * option error))
    (left right : EvalResult) : go (EvalResult * option error) :=
  match isTrue left right with
  | Panics msg => Panics msg
  | Return (out, err) =>
    if bool_decide (err <> None) || negb out then Return (resultFalse, err)
    else Return (resultTrue, None)
  end.

Definition EqualOp_IsTrue := isTrueBy (fun numeric => numeric =? 0).
Definition EqualOp_Evaluate := evaluateBy EqualOp_IsTrue.

Definition NotEqualOp_IsTrue := isTrueBy (fun numeric => negb (numeric =? 0)).
Definition NotEqualOp_Evaluate := evaluateBy NotEqualOp_IsTrue.

Definition NullSafeEqualOp_Evaluate (left right : EvalResult)
  : go (EvalResult * option error) := Panics "implement me".
Definition NullSafeEqualOp_IsTrue (left right : EvalResult)
  : go (bool * option error) := Return (false, None).

Definition LessThanOp_IsTrue := isTrueBy (fun numeric => numeric <? 0).
Definition LessThanOp_Evaluate := evaluateBy LessThanOp_IsTrue.

Definition LessEqualOp_IsTrue := isTrueBy (fun numeric => numeric <=? 0).
Definition LessEqualOp_Evaluate := evaluateBy LessEqualOp_IsTrue.

Definition GreaterThanOp_IsTrue := isTrueBy (fun numeric => numeric >? 0).
Definition GreaterThanOp_Evaluate := evaluateBy GreaterThanOp_IsTrue.

Definition GreaterEqualOp_IsTrue := isTrueBy (fun numeric => numeric >=? 0).
Definition GreaterEqualOp_Evaluate := evaluateBy GreaterEqualOp_IsTrue.

(** IN, NOT IN, LIKE, NOT LIKE, REGEXP and NOT REGEXP are stubs: the same
    two bodies six times. *)
Definition stub_Evaluate (left right : EvalResult)
  : go (EvalResult * option error) := Panics "implement me".
Definition stub_IsTrue (left right : EvalResult)
  : go (bool * option error) := Return (false, None).

(** Dynamic dispatch of [ComparisonOp.Evaluate]. *)
Definition Op_Evaluate (op : ComparisonOp) : EvalResult -> EvalResult -> go (EvalResult * option error) :=
  match op with
  | EqualOp => EqualOp_Evaluate
  | NotEqualOp => NotEqualOp_Evaluate
  | NullSafeEqualOp => NullSafeEqualOp_Evaluate
  | LessThanOp => LessThanOp_Evaluate
  | LessEqualOp => LessEqualOp_Evaluate
  | GreaterThanOp => GreaterThanOp_Evaluate
  | GreaterEqualOp => GreaterEqualOp_Evaluate
  | InOp | NotInOp | LikeOp | NotLikeOp | RegexpOp | NotRegexpOp => stub_Evaluate
  end.

(** Dynamic dispatch of [ComparisonOp.IsTrue]. *)
Definition Op_IsTrue (op : ComparisonOp) : EvalResult -> EvalResult -> go (bool * option error) :=
  match op with
  | EqualOp => EqualOp_IsTrue
  | NotEqualOp => NotEqualOp_IsTrue
  | NullSafeEqualOp => NullSafeEqualOp_IsTrue
  | LessThanOp => LessThanOp_IsTrue
  | LessEqualOp => LessEqualOp_IsTrue
  | GreaterThanOp => GreaterThanOp_IsTrue
  | GreaterEqualOp => GreaterEqualOp_IsTrue
  | InOp | NotInOp | LikeOp | NotLikeOp | RegexpOp | NotRegexpOp => stub_IsTrue
  end.

Definition Op_Type (op : ComparisonOp) : querypb_Type := Type_INT32.

Definition Op_String (op : ComparisonOp) : string :=
  match op with
  | EqualOp => "="
  | NotEqualOp => "!="
  | NullSafeEqualOp => "<=>"
  | LessThanOp => "<"
  | LessEqualOp => "<="
  | GreaterThanOp => ">"
  | GreaterEqualOp => ">="
  | InOp => "in"
  | NotInOp => "not in"
  | LikeOp => "like"
  | NotLikeOp => "not like"
  | RegexpOp => "regexp"
  | NotRegexpOp => "not regexp"
  end.

(** The type assertion [c.Op.( *NullSafeEqualOp )]. *)
Definition isNullsafe (op : ComparisonOp) : bool :=
  match op with NullSafeEqualOp => true | _ => false end.

Definition needsOperator : error :=
  Errorf Code_INTERNAL "a comparison expression needs a comparison operator".

Definition ComparisonExpr_Evaluate (c : ComparisonExpr) (env : ExpressionEnv)
  : M (EvalResult * option error) :=
  match Op c with
  | None => ret (EvalResult_zero, Some needsOperator)
  | Some op =>
    bind (evaluateComparisonExprs c env) (fun '(lVal, rVal, err) =>
      match err with
      | Some e => ret (EvalResult_zero, Some e)
      | None =>
        if hasNullEvalResult lVal rVal && negb (isNullsafe op)
        then ret (resultNull, None)
        else lift (Op_Evaluate op lVal rVal)
      end)
  end.

Definition ComparisonExpr_Type (c : ComparisonExpr) (env : ExpressionEnv)
  : querypb_Type * option error := (Type_INT32, None).

(** Calling [String] on a nil [Op] is a nil dereference. *)
Definition ComparisonExpr_String (c : ComparisonExpr) : go string :=
  match Op c with
  | None => Panics "invalid memory address or nil pointer dereference"
  | Some op =>
    Return (Expr_String (Left c) +:+ " " +:+ Op_String op +:+ " "
            +:+ Expr_String (Right c))
  end.

End Kernel.

Arguments Expr : clear implicits.
Arguments ComparisonExpr : clear implicits.

End Evalengine.

(** ** The VDiff bookkeeping

    Modelled from the spec: the VDiff engine (controller, shard differ,
    state store, retry engine) is not among the sources; the end-to-end
    test that drives it is.  The module below follows the written design:
    the three sidecar tables of a target shard, the controller commands,
    the shard differ with its checkpoint, and the retry sweeper. *)

Module VDiff.

(** Modelled from the spec: the states a [vdiff] or [vdiff_table] row can
    be in. *)
Inductive vdiff_state : Type := pending | started | stopped | error | completed.

#[export] Instance vdiff_state_eq_dec : EqDecision vdiff_state.
Proof. solve_decision. Defined.

(** Modelled from the spec: the retry engine partitions stream errors into
    ephemeral ones (MySQL 1213 / sqlstate 40001, connection resets, tablet
    not serving) and permanent ones. *)
Inductive error_kind : Type := Ephemeral | Permanent.

#[export] Instance error_kind_eq_dec : EqDecision error_kind.
Proof. solve_decision. Defined.

Record vdiff_error : Type := mkError {
  kind : error_kind;
  text : string
}.

(** Modelled from the spec: one [vdiff] row per shard per run. *)
Record vdiff_row : Type := mkVdiff {
  vd_id : nat;
  vd_uuid : string;
  vd_keyspace : string;
  vd_workflow : string;
  vd_state : vdiff_state;
  vd_created_at : nat;
  vd_started_at : option nat;
  vd_completed_at : option nat;
  vd_last_error : option vdiff_error;
  vd_options_json : string;
  vd_rows_compared : nat
}.

(** Modelled from the spec: one [vdiff_table] row per run and table.  The
    saved "last compared PK" the differ reads back is the column
    [vdt_lastpk]. *)
Record vdiff_table_row : Type := mkVdiffTable {
  vdt_vdiff_id : nat;
  vdt_table_name : string;
  vdt_state : vdiff_state;
  vdt_rows_compared : nat;
  vdt_mismatched_rows : nat;
  vdt_report_json : string;
  vdt_lastpk : option Z
}.

(** Modelled from the spec: the append-only audit log. *)
Record vdiff_log_row : Type := mkVdiffLog {
  vdl_vdiff_id : nat;
  vdl_ts : nat;
  vdl_message : string
}.

(** Modelled from the spec: the sidecar database of one target shard
    primary, with the auto-increment counter of [vdiff.id]. *)
Record sidecar : Type := mkSidecar {
  vdiff : list vdiff_row;
  vdiff_table : list vdiff_table_row;
  vdiff_log : list vdiff_log_row;
  next_id : nat
}.

(** Modelled from the spec: a column value keeps SQL NULL and the empty
    ENUM apart from the empty string and from each other. *)
Inductive column : Type :=
| SqlNull | EmptyEnum | Text (s : string) | Number (n : Z).

#[export] Instance column_eq_dec : EqDecision column.
Proof. solve_decision. Defined.

(** Modelled from the spec: a row stream record is a primary key and the
    tuple of the other columns. *)
Record row : Type := mkRow {
  pk : Z;
  cols : list column
}.

(** Modelled from the spec: a target shard primary as the differ sees it:
    per table, the rows of the source shards that cover its key range, its
    own rows, and its sidecar database. *)
Record tablet : Type := mkTablet {
  shard : string;
  source : string -> list row;
  target : string -> list row;
  db : sidecar
}.

Definition cluster : Type := list tablet.

(** *** Row updates *)

Definition set_vdiff (st : vdiff_state) (sa ca : option nat)
    (le : option vdiff_error) (rc : nat) (v : vdiff_row) : vdiff_row :=
  {| vd_id := vd_id v; vd_uuid := vd_uuid v; vd_keyspace := vd_keyspace v;
     vd_workflow := vd_workflow v; vd_state := st;
     vd_created_at := vd_created_at v; vd_started_at := sa;
     vd_completed_at := ca; vd_last_error := le;
     vd_options_json := vd_options_json v; vd_rows_compared := rc |}.

Definition set_table_state (st : vdiff_state) (t : vdiff_table_row) : vdiff_table_row :=
  {| vdt_vdiff_id := vdt_vdiff_id t; vdt_table_name := vdt_table_name t;
     vdt_state := st; vdt_rows_compared := vdt_rows_compared t;
     vdt_mismatched_rows := vdt_mismatched_rows t;
     vdt_report_json := vdt_report_json t; vdt_lastpk := vdt_lastpk t |}.

(** Ids of the [vdiff] rows that satisfy [P]. *)
Definition ids_where (P : vdiff_row -> Prop) `{forall v, Decision (P v)}
    (sc : sidecar) : list nat :=
  vd_id <$> filter P (vdiff sc).

(** Modelled from the spec: states move on [vdiff] and [vdiff_table]
    together, and every mutation leaves a [vdiff_log] entry.  [transition]
    rewrites the [vdiff] rows that satisfy [P] with [f], moves their tables
    to [st] and logs [msg] for each of them. *)
Definition transition (now : nat) (P : vdiff_row -> Prop)
    `{forall v, Decision (P v)} (f : vdiff_row -> vdiff_row)
    (st : vdiff_state) (msg : string) (sc : sidecar) : sidecar :=
  let ids := ids_where P sc in
  {| vdiff := (fun v => if decide (P v) then f v else v) <$> vdiff sc;
     vdiff_table :=
       (fun t => if decide (vdt_vdiff_id t ∈ ids) then set_table_state st t else t)
         <$> vdiff_table sc;
     vdiff_log := vdiff_log sc ++ ((fun i => mkVdiffLog i now msg) <$> ids);
     next_id := next_id sc |}.

Definition on_db (f : sidecar -> sidecar) (tb : tablet) : tablet :=
  {| shard := shard tb; source := source tb; target := target tb; db := f (db tb) |}.

(** *** Controller commands *)

Definition has_uuid (u : string) (v : vdiff_row) : Prop := vd_uuid v = u.

Definition of_workflow (ks wf : string) (v : vdiff_row) : Prop :=
  vd_keyspace v = ks /\ vd_workflow v = wf.

Definition uuid_exists (u : string) (cl : cluster) : Prop :=
  Exists (fun tb => Exists (has_uuid u) (vdiff (db tb))) cl.

#[export] Instance has_uuid_dec u v : Decision (has_uuid u v).
Proof. unfold has_uuid; apply _. Defined.

#[export] Instance of_workflow_dec ks wf v : Decision (of_workflow ks wf v).
Proof. unfold of_workflow; apply _. Defined.

#[export] Instance uuid_exists_dec u cl : Decision (uuid_exists u cl).
Proof. unfold uuid_exists; apply _. Defined.

(** Modelled from the spec: [create] persists a [vdiff] row on every target
    shard, with one [vdiff_table] row per table. *)
Definition create_on (now : nat) (u ks wf : string) (tables : list string)
    (sc : sidecar) : sidecar :=
  let i := next_id sc in
  {| vdiff := vdiff sc ++
       [mkVdiff i u ks wf pending now None None None "" 0];
     vdiff_table := vdiff_table sc ++
       ((fun n => mkVdiffTable i n pending 0 0 "" None) <$> tables);
     vdiff_log := vdiff_log sc ++ [mkVdiffLog i now "created"];
     next_id := S i |}.

(** Modelled from the spec: a [create] with a UUID that already exists is
    rejected (InvalidArgument, "already exists") and stores nothing. *)
Definition create (now : nat) (u ks wf : string) (tables : list string)
    (cl : cluster) : cluster :=
  if decide (uuid_exists u cl) then cl
  else on_db (create_on now u ks wf tables) <$> cl.

(** Back to started with [last_error] cleared; the counter is kept. *)
Definition restart (now : nat) (v : vdiff_row) : vdiff_row :=
  set_vdiff started (Some now) None None (vd_rows_compared v) v.

Definition resumable (v : vdiff_row) : Prop :=
  vd_state v = stopped \/ vd_state v = error \/ vd_state v = completed.

#[export] Instance resumable_dec v : Decision (resumable v).
Proof. unfold resumable; apply _. Defined.

(** Modelled from the spec: [resume] needs the shard's row to be stopped,
    in error or completed; it clears [last_error] and moves to started.
    The checkpoint is left in place, so scanning resumes from it. *)
Definition resume (now : nat) (u : string) (cl : cluster) : cluster :=
  on_db (transition now (fun v => has_uuid u v /\ resumable v)
           (restart now) started "resumed") <$> cl.

(** Modelled from the spec: [stop] moves every shard of the run to stopped
    and clears a cancellation error left in [last_error]. *)
Definition stop (now : nat) (u : string) (cl : cluster) : cluster :=
  on_db (transition now (has_uuid u)
           (fun v => set_vdiff stopped (vd_started_at v) None None (vd_rows_compared v) v)
           stopped "stopped") <$> cl.

(** Modelled from the spec: a stream error on a running shard moves it to
    error and persists [last_error]. *)
Definition fail (now : nat) (u sh : string) (e : vdiff_error) (cl : cluster) : cluster :=
  (fun tb =>
     if decide (shard tb = sh) then
       on_db (transition now (fun v => has_uuid u v /\ vd_state v = started)
                (fun v => set_vdiff error (vd_started_at v) None (Some e) (vd_rows_compared v) v)
                error "error") tb
     else tb) <$> cl.

Definition ephemeral_error (v : vdiff_row) : Prop :=
  vd_state v = error /\ (kind <$> vd_last_error v) = Some Ephemeral.

#[export] Instance ephemeral_error_dec v : Decision (ephemeral_error v).
Proof. unfold ephemeral_error; apply _. Defined.

(** Modelled from the spec: the periodic sweeper picks up every shard row
    in error with an ephemeral [last_error] and moves it back to started,
    resuming from the last checkpoint. *)
Definition retry_sweep (now : nat) (cl : cluster) : cluster :=
  on_db (transition now ephemeral_error (restart now) started "retrying") <$> cl.

Inductive delete_target : Type := DeleteUUID (u : string) | DeleteAll.

Definition delete_matches (ks wf : string) (tg : delete_target) (v : vdiff_row) : Prop :=
  of_workflow ks wf v /\
  match tg with DeleteUUID u => has_uuid u v | DeleteAll => True end.

#[export] Instance delete_matches_dec ks wf tg v : Decision (delete_matches ks wf tg v).
Proof. unfold delete_matches; destruct tg; apply _. Defined.

(** Rows of the three tables that belong to the [vdiff] rows in [P] are
    removed together. *)
Definition purge (P : vdiff_row -> Prop) `{forall v, Decision (P v)}
    (sc : sidecar) : sidecar :=
  let ids := ids_where P sc in
  {| vdiff := filter (fun v => ~ P v) (vdiff sc);
     vdiff_table := filter (fun t => vdt_vdiff_id t ∉ ids) (vdiff_table sc);
     vdiff_log := filter (fun l => vdl_vdiff_id l ∉ ids) (vdiff_log sc);
     next_id := next_id sc |}.

(** Modelled from the spec: [delete] removes the matching [vdiff],
    [vdiff_table] and [vdiff_log] rows on every target shard. *)
Definition delete (ks wf : string) (tg : delete_target) (cl : cluster) : cluster :=
  on_db (purge (delete_matches ks wf tg)) <$> cl.

(** Modelled from the spec: when the parent workflow is completed every
    [vdiff*] row of the workflow is purged. *)
Definition complete_workflow (ks wf : string) (cl : cluster) : cluster :=
  on_db (purge (of_workflow ks wf)) <$> cl.

(** *** The shard differ *)

(** Modelled from the spec: what one scan of one table has done so far:
    rows compared, rows found mismatched, and the primary key of the last
    row handled. *)
Record progress : Type := mkProgress {
  compared : nat;
  mismatched : nat;
  last_pk : option Z
}.

(** Modelled from the spec: a row present on one side only is an extra or
    missing record and counts as compared and as mismatched. *)
Definition extra (r : row) (p : progress) : progress :=
  {| compared := S (compared p); mismatched := S (mismatched p);
     last_pk := Some (pk r) |}.

(** Modelled from the spec: on two rows with the same primary key the
    other columns are compared. *)
Definition matched (a b : row) (p : progress) : progress :=
  {| compared := S (compared p);
     mismatched := mismatched p + (if decide (cols a = cols b) then 0 else 1);
     last_pk := Some (pk a) |}.

(** Modelled from the spec: merge-compare of the two ordered streams.  The
    fuel bounds the number of steps; [length s + length t] always suffices. *)
Fixpoint merge_compare (fuel : nat) (s t : list row) (p : progress) : progress :=
  match fuel with
  | O => p
  | S fuel' =>
    match s, t with
    | [], [] => p
    | a :: s', [] => merge_compare fuel' s' [] (extra a p)
    | [], b :: t' => merge_compare fuel' [] t' (extra b p)
    | a :: s', b :: t' =>
      if decide (pk a < pk b) then merge_compare fuel' s' t (extra a p)
      else if decide (pk b < pk a) then merge_compare fuel' s t' (extra b p)
      else merge_compare fuel' s' t' (matched a b p)
    end
  end.

(** Modelled from the spec: rows after the checkpoint, which has been
    compared already; without a checkpoint the scan starts at the minimum. *)
Definition beyond (cp : option Z) (r : row) : Prop :=
  match cp with
  | None => True
  | Some c => c < pk r
  end.

#[export] Instance beyond_dec cp r : Decision (beyond cp r).
Proof. unfold beyond; destruct cp; apply _. Defined.

Definition pk_le (a b : row) : Prop := pk a <= pk b.

#[export] Instance pk_le_dec a b : Decision (pk_le a b).
Proof. unfold pk_le; apply _. Defined.

(** Modelled from the spec: a stream delivers the rows of a table in
    primary-key order, starting after the saved checkpoint. *)
Definition stream (rows : list row) (cp : option Z) : list row :=
  filter (beyond cp) (merge_sort pk_le rows).

Definition scan (tb : tablet) (t : vdiff_table_row) : progress :=
  let src := stream (source tb (vdt_table_name t)) (vdt_lastpk t) in
  let tgt := stream (target tb (vdt_table_name t)) (vdt_lastpk t) in
  merge_compare (length src + length tgt) src tgt
    {| compared := 0; mismatched := 0; last_pk := vdt_lastpk t |}.

(** Modelled from the spec: the scan adds to the counters of the table
    row, saves the last primary key as the checkpoint and completes the
    table.  (The bounded sample written to [report_json] is left out.) *)
Definition diff_table (tb : tablet) (t : vdiff_table_row) : vdiff_table_row :=
  let p := scan tb t in
  {| vdt_vdiff_id := vdt_vdiff_id t; vdt_table_name := vdt_table_name t;
     vdt_state := completed;
     vdt_rows_compared := vdt_rows_compared t + compared p;
     vdt_mismatched_rows := vdt_mismatched_rows t + mismatched p;
     vdt_report_json := vdt_report_json t;
     vdt_lastpk := last_pk p |}.

Definition tables_of (i : nat) (sc : sidecar) : list vdiff_table_row :=
  filter (fun t => vdt_vdiff_id t = i) (vdiff_table sc).

(** Modelled from the spec: the rows one pass of the differ compares for
    the [vdiff] row [i], over the tables of the run. *)
Definition compared_by (tb : tablet) (i : nat) : nat :=
  sum_list_with (fun t => compared (scan tb t)) (tables_of i (db tb)).

Definition runnable (u : string) (v : vdiff_row) : Prop :=
  has_uuid u v /\ (vd_state v = pending \/ vd_state v = started).

#[export] Instance runnable_dec u v : Decision (runnable u v).
Proof. unfold runnable; apply _. Defined.

(** Modelled from the spec: the differ of run [u] on one shard scans every
    table of the run from its checkpoint; when both streams are exhausted
    the tables and then the shard's [vdiff] row are completed, with
    [completed_at] set and the rows compared added to [rows_compared]. *)
Definition run_differ_on (now : nat) (u : string) (tb : tablet) : tablet :=
  let sc := db tb in
  let ids := ids_where (runnable u) sc in
  {| shard := shard tb; source := source tb; target := target tb;
     db :=
       {| vdiff :=
            (fun v =>
               if decide (runnable u v) then
                 set_vdiff completed
                   (Some (default now (vd_started_at v))) (Some now)
                   (vd_last_error v)
                   (vd_rows_compared v + compared_by tb (vd_id v)) v
               else v) <$> vdiff sc;
          vdiff_table :=
            (fun t => if decide (vdt_vdiff_id t ∈ ids) then diff_table tb t else t)
              <$> vdiff_table sc;
          vdiff_log :=
            vdiff_log sc ++ ((fun i => mkVdiffLog i now "completed") <$> ids);
          next_id := next_id sc |} |}.

Definition run_differ (now : nat) (u : string) (cl : cluster) : cluster :=
  run_differ_on now u <$> cl.

(** *** What [show] reports *)

(** Modelled from the spec: the fields of the output that the test reads. *)
Record summary : Type := mkSummary {
  UUID : string;
  State : vdiff_state;
  RowsCompared : nat;
  HasMismatch : bool;
  Errors : list (string * string)
}.

(** The [vdiff] rows of run [u], each with the shard that holds it. *)
Definition run_rows (u : string) (cl : cluster) : list (string * vdiff_row) :=
  tb ← cl; (fun v => (shard tb, v)) <$> filter (has_uuid u) (vdiff (db tb)).

(** Modelled from the spec: the state of a run is derived from its shards:
    completed iff every shard is completed; started if any shard is
    started; error if any shard is in error and none is started; otherwise
    stopped or pending. *)
Definition derived_state (sts : list vdiff_state) : vdiff_state :=
  if decide (Forall (fun st => st = completed) sts) then completed
  else if decide (started ∈ sts) then started
  else if decide (error ∈ sts) then error
  else if decide (stopped ∈ sts) then stopped
  else pending.

(** Modelled from the spec: [RowsCompared] of a run is the sum over the
    shards of the counter that the initial run and every resume add to. *)
Definition shard_rows_compared (u : string) (tb : tablet) : nat :=
  sum_list_with vd_rows_compared (filter (has_uuid u) (vdiff (db tb))).

Definition rows_compared (u : string) (cl : cluster) : nat :=
  sum_list_with (shard_rows_compared u) cl.

Definition mismatch_on (u : string) (tb : tablet) : Prop :=
  Exists (fun t => vdt_vdiff_id t ∈ ids_where (has_uuid u) (db tb)
                   /\ 0 < vdt_mismatched_rows t)%nat
         (vdiff_table (db tb)).

#[export] Instance mismatch_on_dec u tb : Decision (mismatch_on u tb).
Proof. unfold mismatch_on; apply _. Defined.

Definition has_mismatch (u : string) (cl : cluster) : bool :=
  bool_decide (Exists (mismatch_on u) cl).

(** Modelled from the spec: the [Errors] field lists the shards whose
    [last_error] is set; the field is absent from the output when the list
    is empty. *)
Definition errors (u : string) (cl : cluster) : list (string * string) :=
  omap (fun '(sh, v) => (fun e => (sh, text e)) <$> vd_last_error v) (run_rows u cl).

(** Modelled from the spec: [show] for a UUID; there is no output for a
    UUID that no shard knows. *)
Definition show (u : string) (cl : cluster) : option summary :=
  match run_rows u cl with
  | [] => None
  | rows =>
    Some {| UUID := u;
            State := derived_state ((fun r => vd_state r.2) <$> rows);
            RowsCompared := rows_compared u cl;
            HasMismatch := has_mismatch u cl;
            Errors := errors u cl |}
  end.

(** *** What the end-to-end test does to the cluster *)

Definition deadlock : vdiff_error :=
  mkError Ephemeral
    "vttablet: rpc error: code = Unknown desc = (errno 1213) (sqlstate 40001): Deadlock found when trying to get lock; try restarting transaction".

(** [sqlSimulateError]: a two-table update joined on
    [vd.id = vdt.vdiff_id] and restricted to the UUID. *)
Definition simulate_error_on (u : string) (sc : sidecar) : sidecar :=
  let joined v := has_uuid u v /\ vd_id v ∈ (vdt_vdiff_id <$> vdiff_table sc) in
  {| vdiff :=
       (fun v => if decide (joined v)
                 then set_vdiff error (vd_started_at v) None (Some deadlock)
                        (vd_rows_compared v) v
                 else v) <$> vdiff sc;
     vdiff_table :=
       (fun t => if decide (vdt_vdiff_id t ∈ ids_where (has_uuid u) sc)
                 then set_table_state error t else t) <$> vdiff_table sc;
     vdiff_log := vdiff_log sc;
     next_id := next_id sc |}.

Definition simulate_error (u : string) (cl : cluster) : cluster :=
  on_db (simulate_error_on u) <$> cl.

(** Modelled from the spec: rows inserted on the source; [ins sh n] are
    the new rows of table [n] in the key range of target shard [sh]. *)
Definition insert_source_on (ins : string -> string -> list row) (tb : tablet) : tablet :=
  {| shard := shard tb;
     source := fun n => (source tb n ++ ins (shard tb) n)%list;
     target := target tb; db := db tb |}.

Definition insert_source (ins : string -> string -> list row) (cl : cluster) : cluster :=
  insert_source_on ins <$> cl.

(** Modelled from the spec: replication has caught up, the target holds
    the rows of the source. *)
Definition catchup_on (tb : tablet) : tablet :=
  {| shard := shard tb; source := source tb; target := source tb; db := db tb |}.

Definition catchup (cl : cluster) : cluster := catchup_on <$> cl.

(** The query of [testNoOrphanedData]: the inner join of the three tables
    on the [vdiff] id, restricted to the workflow. *)
Definition orphan_query (ks wf : string) (sc : sidecar) : list (nat * nat * nat) :=
  vd ← filter (of_workflow ks wf) (vdiff sc);
  vdt ← filter (fun t => vdt_vdiff_id t = vd_id vd) (vdiff_table sc);
  vdl ← filter (fun l => vdl_vdiff_id l = vd_id vd) (vdiff_log sc);
  [(vd_id vd, vdt_vdiff_id vdt, vdl_vdiff_id vdl)].

(** *** Everything that can happen to a cluster *)

Inductive command : Type :=
| Create (u ks wf : string) (tables : list string)
| Resume (u : string)
| Stop (u : string)
| Delete (ks wf : string) (tg : delete_target)
| Complete (ks wf : string)
| RunDiffer (u : string)
| Fail (u sh : string) (e : vdiff_error)
| RetrySweep
| SimulateError (u : string)
| InsertSource (ins : string -> string -> list row)
| Catchup.

Definition step (now : nat) (c : command) (cl : cluster) : cluster :=
  match c with
  | Create u ks wf tables => create now u ks wf tables cl
  | Resume u => resume now u cl
  | Stop u => stop now u cl
  | Delete ks wf tg => delete ks wf tg cl
  | Complete ks wf => complete_workflow ks wf cl
  | RunDiffer u => run_differ now u cl
  | Fail u sh e => fail now u sh e cl
  | RetrySweep => retry_sweep now cl
  | SimulateError u => simulate_error u cl
  | InsertSource ins => insert_source ins cl
  | Catchup => catchup cl
  end.

Definition empty_sidecar : sidecar :=
  {| vdiff := []; vdiff_table := []; vdiff_log := []; next_id := 1 |}.

(** A cluster whose sidecar tables are still empty. *)
Definition fresh (cl : cluster) : Prop :=
  Forall (fun tb => db tb = empty_sidecar) cl.

(** The clusters that arise from a fresh one by any sequence of commands,
    each at its own clock reading. *)
Inductive reachable : cluster -> Prop :=
| reachable_fresh cl : fresh cl -> reachable cl
| reachable_step now c cl : reachable cl -> reachable (step now c cl).

(** No [vdiff_table] or [vdiff_log] row without its parent [vdiff] row. *)
Definition orphan_free (sc : sidecar) : Prop :=
  Forall (fun t => vdt_vdiff_id t ∈ (vd_id <$> vdiff sc)) (vdiff_table sc) /\
  Forall (fun l => vdl_vdiff_id l ∈ (vd_id <$> vdiff sc)) (vdiff_log sc).

(** Rows of the three tables that belong to the workflow, counted in
    [after]; a [vdiff_table] or [vdiff_log] row belongs to the workflow
    through its parent, looked up in [before]. *)
Definition workflow_rows (ks wf : string) (before after : sidecar) : nat * nat * nat :=
  let ids := ids_where (of_workflow ks wf) before in
  (length (filter (of_workflow ks wf) (vdiff after)),
   length (filter (fun t => vdt_vdiff_id t ∈ ids) (vdiff_table after)),
   length (filter (fun l => vdl_vdiff_id l ∈ ids) (vdiff_log after))).



(** The situation the resume and retry tests set up, for one table row of
    the run: the earlier run has compared every row the source then held
    (none lies beyond the checkpoint), and every inserted row has a primary
    key beyond the checkpoint. *)
Definition checkpoint_splits (ins : string -> string -> list row)
    (tb : tablet) (t : vdiff_table_row) : Prop :=
  Forall (fun r => ~ beyond (vdt_lastpk t) r) (source tb (vdt_table_name t)) /\
  Forall (beyond (vdt_lastpk t)) (ins (shard tb) (vdt_table_name t)).

(** Every [vdiff] row of run [u], on every shard, satisfies [Q]. *)
Definition every_row (u : string) (Q : vdiff_row -> Prop) (cl : cluster) : Prop :=
  Forall (fun tb => Forall (fun v => has_uuid u v -> Q v) (vdiff (db tb))) cl.

#[export] Instance every_row_dec u (Q : vdiff_row -> Prop)
  `{forall v, Decision (Q v)} cl : Decision (every_row u Q cl).
Proof. unfold every_row; apply _. Defined.

#[export] Instance checkpoint_splits_dec ins tb t :
  Decision (checkpoint_splits ins tb t).
Proof. unfold checkpoint_splits; apply _. Defined.

(** [checkpoint_splits] for every table row of run [u] on every shard. *)
Definition settled (u : string) (ins : string -> string -> list row)
    (cl : cluster) : Prop :=
  Forall (fun tb =>
    Forall (fun v => has_uuid u v ->
              Forall (checkpoint_splits ins tb) (tables_of (vd_id v) (db tb)))
           (vdiff (db tb))) cl.

#[export] Instance settled_dec u ins cl : Decision (settled u ins cl).
Proof. unfold settled; apply _. Defined.

(** The target of the shard holds no row beyond the checkpoint of table
    row [t]: whatever it held has been compared. *)
Definition target_scanned_at (tb : tablet) (t : vdiff_table_row) : Prop :=
  Forall (fun r => ~ beyond (vdt_lastpk t) r) (target tb (vdt_table_name t)).

#[export] Instance target_scanned_at_dec tb t : Decision (target_scanned_at tb t).
Proof. unfold target_scanned_at; apply _. Defined.

(** [target_scanned_at] for every table row of run [u] on every shard. *)
Definition target_scanned (u : string) (cl : cluster) : Prop :=
  Forall (fun tb =>
    Forall (fun v => has_uuid u v ->
              Forall (target_scanned_at tb) (tables_of (vd_id v) (db tb)))
           (vdiff (db tb))) cl.

#[export] Instance target_scanned_dec u cl : Decision (target_scanned u cl).
Proof. unfold target_scanned; apply _. Defined.



Definition orphan_free_everywhere (cl : cluster) : Prop :=
  Forall (fun tb => orphan_free (db tb)) cl.

(** What the sweep leaves of workflow [ks.wf] on one shard: nothing in any
    of the three tables, and nothing for the query of the test to find. *)
Definition swept (ks wf : string) (tb tb' : tablet) : Prop :=
  shard tb' = shard tb /\
  workflow_rows ks wf (db tb) (db tb') = (0, 0, 0)%nat /\
  orphan_query ks wf (db tb') = [].

End VDiff.

(** ** Concrete expressions and data for running the definitions *)

Module Samples.
Import Evalengine.

(** The process state records which expressions were evaluated, in order. *)
Definition trace : Type := list string.

(** An expression that notes its name and yields [v]. *)
Definition literal (name : string) (v : EvalResult) : Expr trace unit :=
  {| Evaluate := fun _ w => (Return (v, None), (w ++ [name])%list);
     Expr_String := name |}.

(** An expression that notes its name and fails with [e]. *)
Definition failing (name : string) (e : error) : Expr trace unit :=
  {| Evaluate := fun _ w => (Return (EvalResult_zero, Some e), (w ++ [name])%list);
     Expr_String := name |}.

(** An expression that notes its name and panics. *)
Definition crashing (name : string) : Expr trace unit :=
  {| Evaluate := fun _ w => (Panics name, (w ++ [name])%list);
     Expr_String := name |}.

Definition int64 (n : Z) : EvalResult := {| typ := Int64; ival := n; bytes := "" |}.
Definition text (s : string) : EvalResult := {| typ := VarChar; ival := 0; bytes := s |}.
Definition decimal (s : string) : EvalResult := {| typ := Decimal; ival := 0; bytes := s |}.

(** A stand-in for [compareNumeric], enough to run the kernel on integer
    payloads: the sign of the difference of the two [ival] fields. *)
Definition compareIval (l r : EvalResult) : go (Z * option error) :=
  Return (Z.sgn (ival l - ival r), None).

(** A stand-in for [makeNumeric] that leaves its argument as it is. *)
Definition keepNumeric (v : EvalResult) : EvalResult := v.

Definition boom : error := Errorf Code_UNKNOWN "boom".

End Samples.

(** The first case of the end-to-end test in small: workflow [p1c2] into
    keyspace [customer] with target shards [-80] and [80-]. *)
Module Scenario.
Import VDiff.

Definition customers (pks : list Z) : string -> list row :=
  fun n => if decide (n = "customer")
           then (fun k => mkRow k [Text "Testy McTester"; SqlNull; EmptyEnum]) <$> pks
           else [].

Definition blank : cluster :=
  [ {| shard := "-80"; source := customers [30; 10]; target := customers [30; 10];
       db := empty_sidecar |};
    {| shard := "80-"; source := customers [20]; target := customers [20];
       db := empty_sidecar |} ].

(** A first run, carried to completion. *)
Definition diffed : cluster :=
  step 2 (RunDiffer "u1")
    (step 1 (Create "u1" "customer" "p1c2" ["customer"; "Lead"]) blank).


(** The run after the simulated deadlock. *)
Definition errored : cluster := step 3 (SimulateError "u1") diffed.










End Scenario.

(** ** The cross-check harness of the evaluation engine

    [go/vt/vtgate/evalengine/integration/fuzz_test.go].  An [error] is
    represented by the text its [Error] method returns, [nil] by [None].
    The regular expressions, the SQL parser and the converter from the
    syntax tree are other packages; the harness is parametric in them. *)

Module Fuzz.
Import Evalengine.

(** The fields of [comparisonResult]. *)
Record comparisonResult : Type := mkComparisonResult {
  localErr : option string;
  remoteErr : option string;
  localVal : string;
  remoteVal : string;
  evaluated : bool
}.

(** [fmt]'s [%v] of a [bool]. *)
Definition fmt_bool (b : bool) : string := if b then "true" else "false".

(** An out-of-range index on a slice of length [n]. *)
Definition index_out_of_range (i n : nat) : string :=
  "runtime error: index out of range [" +:+ pretty i +:+ "] with length " +:+ pretty n.

Section Harness.

(** [extractError.FindStringSubmatch]: [None] for a [nil] result. *)
Variable FindStringSubmatch : string -> option (list string).

(** [MatchString] of each of the [knownErrors], in order. *)
Variable knownErrors : list (string -> bool).

Definition errorsMatch (remote local : string) : go bool :=
  match FindStringSubmatch remote with
  | None => Panics "could not extract error message"
  | Some rem =>
    match rem !! 1%nat with
    | None => Panics (index_out_of_range 1 (length rem))
    | Some remoteMessage =>
      let localMessage := local in
      if decide (remoteMessage = localMessage) then Return true
      else Return (existsb (fun re => re remoteMessage) knownErrors)
    end
  end.

Definition diff (cr : comparisonResult) : go string :=
  match localErr cr with
  | Some le =>
    match remoteErr cr with
    | None =>
      Return (le +:+ " (eval=" +:+ fmt_bool (evaluated cr)
              +:+ "); mysql response: " +:+ remoteVal cr)
    | Some re =>
      match errorsMatch re le with
      | Panics msg => Panics msg
      | Return false =>
        Return ("mismatch in errors: eval=" +:+ le +:+ "; mysql response: " +:+ re)
      | Return true => Return ""
      end
    end
  | None =>
    match remoteErr cr with
    | Some re =>
      if existsb (fun ke => ke re) knownErrors then Return ""
      else Return (localVal cr +:+ " (eval=" +:+ fmt_bool (evaluated cr)
                   +:+ "); mysql failed with: " +:+ re)
    | None =>
      if decide (localVal cr <> remoteVal cr) then
        Return ("different results:" +:+ localVal cr +:+ " (eval="
                +:+ fmt_bool (evaluated cr) +:+ "); mysql response: "
                +:+ remoteVal cr)
      else Return ""
    end
  end.

(** The statement, the syntax tree and the converted expression. *)
Context {Stmt AstExpr LocalExpr : Type}.

(** [sqlparser.Parse]. *)
Variable Parse : string -> go (Stmt * option string).

(** The chain [stmt.( *Select ).SelectExprs[0].( *AliasedExpr ).Expr], which
    panics on any other statement. *)
Variable selectExpr : Stmt -> go AstExpr.

(** [evalengine.ConvertEx] at the dummy collation; the expression it
    returns is an interface value, [None] when [nil]. *)
Variable ConvertEx : AstExpr -> go (option LocalExpr * option string).

(** [( *ExpressionEnv )(nil).Evaluate]. *)
Variable Evaluate : option LocalExpr -> go (EvalResult * option string).

(** A call under [defer func() { if r := recover(); r != nil { err = ... } }()]
    with named results: after a panic the value result keeps its zero value
    and the error is the formatted panic. *)
Definition recovered {A} (zero : A) (call : go (A * option string)) : A * option string :=
  match call with
  | Return r => r
  | Panics msg => (zero, Some ("PANIC: " +:+ msg))
  end.

Definition safeEvaluate (query : string) : go (EvalResult * bool * option string) :=
  match Parse query with
  | Panics msg => Panics msg
  | Return (_, Some err) => Return (EvalResult_zero, false, Some err)
  | Return (stmt, None) =>
    match selectExpr stmt with
    | Panics msg => Panics msg
    | Return astExpr =>
      let '(local, err) := recovered None (ConvertEx astExpr) in
      match err with
      | Some err => Return (EvalResult_zero, false, Some err)
      | None =>
        let '(eval, err) := recovered EvalResult_zero (Evaluate local) in
        Return (eval, true, err)
      end
    end
  end.

(** [strings.Contains]. *)
Fixpoint Contains (s substr : string) : bool :=
  String.prefix substr s
  || match s with
     | EmptyString => false
     | String _ s' => Contains s' substr
     end.

Definition syntaxErr : string :=
  "You have an error in your SQL syntax; (errno 1064) (sqlstate 42000) during query: SQL".
Definition localSyntaxErr : string := "You have an error in your SQL syntax;".

(** The answer of the MySQL connection, and the text of its first cell
    ([remote.Rows[0][0].String()], which panics on an empty result). *)
Context {Remote : Type}.
Variable ExecuteFetch : string -> Remote * option string.
Variable firstCell : Remote -> go string.

(** [eval.Value().String()]. *)
Variable valueString : EvalResult -> string.

(** The closure [bothReturnSameResult] of [TestGenerateFuzzCases], applied
    to the text of the query. *)
Definition bothReturnSameResult (query : string) : go comparisonResult :=
  match safeEvaluate query with
  | Panics msg => Panics msg
  | Return (eval, evaluated, localErr) =>
    let '(remote, remoteErr) := ExecuteFetch query in
    let localErr :=
      match localErr with
      | Some e => if Contains e "syntax error at position"
                  then Some localSyntaxErr else Some e
      | None => None
      end in
    let remoteErr :=
      match remoteErr with
      | Some e => if Contains e "You have an error in your SQL syntax"
                  then Some syntaxErr else Some e
      | None => None
      end in
    let localVal := if evaluated then valueString eval else "" in
    match remoteErr with
    | Some _ =>
      Return {| localErr := localErr; remoteErr := remoteErr;
                localVal := localVal; remoteVal := ""; evaluated := evaluated |}
    | None =>
      match firstCell remote with
      | Panics msg => Panics msg
      | Return cell =>
        Return {| localErr := localErr; remoteErr := remoteErr;
                  localVal := localVal; remoteVal := cell; evaluated := evaluated |}
      end
    end
  end.

End Harness.

End Fuzz.

(** ** The tablet manager client of the materializer tests

    [go/vt/wrangler/materializer_env_test.go].  The client is a struct of
    three Go maps; its methods are modelled as functions from the client
    before the call to the outcome and the client after it.  The mutexes
    are left out: the calls are taken one at a time.  The protobuf messages
    are declared in other packages; only the fields this file touches are
    kept. *)

Module Wrangler.

Record TableDefinition : Type := mkTableDefinition {
  Name : string;
  Schema : string
}.

Record SchemaDefinition : Type := mkSchemaDefinition {
  TableDefinitions : list TableDefinition
}.

(** [Uid] is a [uint32]. *)
Record TabletAlias : Type := mkTabletAlias {
  Cell : string;
  Uid : N
}.

(** [Alias] is a pointer, [None] when [nil]. *)
Record Tablet : Type := mkTablet {
  Alias : option TabletAlias;
  Keyspace : string;
  Shard : string
}.

Record GetSchemaRequest : Type := mkGetSchemaRequest {
  Tables : list string
}.

Record ExecuteFetchAsDbaRequest : Type := mkExecuteFetchAsDbaRequest {
  Query : string;
  MaxRows : Z;
  ReloadSchema : bool
}.

Record SchemaChange : Type := mkSchemaChange {
  SQL : string
}.

Definition nil_dereference : string :=
  "runtime error: invalid memory address or nil pointer dereference".

(** Go's [int] is 64 bits wide here; sums wrap around. *)
Definition int_wrap (z : Z) : Z := (z + 2 ^ 63) mod 2 ^ 64 - 2 ^ 63.

(** [strconv.Itoa]: the decimal numeral. *)
Definition Itoa (z : Z) : string := pretty z.

(** [strings.Split] at a one-character separator. *)
Fixpoint Split (sep : Ascii.ascii) (s : string) : list string :=
  match s with
  | EmptyString => [EmptyString]
  | String c s' =>
    if decide (c = sep) then EmptyString :: Split sep s'
    else match Split sep s' with
         | piece :: pieces => String c piece :: pieces
         | [] => [String c EmptyString]
         end
  end.

(** [strings.Count] of a one-character substring. *)
Fixpoint Count (s : string) (sep : Ascii.ascii) : nat :=
  match s with
  | EmptyString => 0
  | String c s' => (if decide (c = sep) then 1 else 0) + Count s' sep
  end.

(** [strings.Join]. *)
Fixpoint Join (pieces : list string) (sep : string) : string :=
  match pieces with
  | [] => ""
  | [piece] => piece
  | piece :: rest => piece +:+ sep +:+ Join rest sep
  end.

(** [fmt]'s [%v] of a [[]string]. *)
Definition fmt_strings (l : list string) : string := "[" +:+ Join l " " +:+ "]".

Section Client.

(** [sqltypes.Result], [querypb.QueryResult] and the conversion between
    them; [tabletmanagerdatapb.SchemaChangeResult]. *)
Context {Result QueryResult SchemaChangeResult : Type}.
Variable ResultToProto3 : Result -> QueryResult.

(** [regexp.MustCompile(pattern).MatchString(s)]; it panics on a pattern
    that does not compile. *)
Variable MustCompile_MatchString : string -> string -> go bool.

(** [fmt]'s [%v] of a tablet. *)
Variable fmt_tablet : Tablet -> string.

(** [queryResult] is declared in another test file of the package: a query
    and the result to answer it with. *)
Record queryResult : Type := mkQueryResult {
  query : string;
  result : QueryResult
}.

(** The maps of [testMaterializerTMClient].  [schema] holds pointers, [None]
    when [nil]. *)
Record testMaterializerTMClient : Type := mkClient {
  schema : gmap string (option SchemaDefinition);
  vrQueries : gmap Z (list queryResult);
  getSchemaCounts : gmap string Z
}.

Definition newTestMaterializerTMClient : testMaterializerTMClient :=
  {| schema := ∅; vrQueries := ∅; getSchemaCounts := ∅ |}.

Definition schemaRequested (uid : N) (tmc : testMaterializerTMClient)
  : testMaterializerTMClient :=
  let key := Itoa (Z.of_N uid) in
  {| schema := schema tmc; vrQueries := vrQueries tmc;
     getSchemaCounts :=
       match getSchemaCounts tmc !! key with
       | None => <[key := 1]> (getSchemaCounts tmc)
       | Some n => <[key := int_wrap (n + 1)]> (getSchemaCounts tmc)
       end |}.

Definition getSchemaRequestCount (uid : N) (tmc : testMaterializerTMClient) : Z :=
  let key := Itoa (Z.of_N uid) in
  default 0 (getSchemaCounts tmc !! key).

(** The loop over the whole map for the table ["/.*/"].  Go visits the
    entries of a map in an order it leaves open, so the entries come in the
    order of the visit. *)
Fixpoint allTables (ks : string) (entries : list (string * option SchemaDefinition))
    (acc : list TableDefinition) : go (list TableDefinition) :=
  match entries with
  | [] => Return acc
  | (key, tableDefn) :: rest =>
    if String.prefix (ks +:+ ".") key then
      match tableDefn with
      | None => Panics nil_dereference
      | Some d => allTables ks rest (acc ++ TableDefinitions d)%list
      end
    else allTables ks rest acc
  end.

(** The loop over [request.Tables]; [visit] lists the entries of
    [tmc.schema] in the order a [range] over the map visits them. *)
Fixpoint getTables (visit : list (string * option SchemaDefinition))
    (tmc : testMaterializerTMClient) (ks : string)
    (tables : list string) (acc : list TableDefinition) : go (list TableDefinition) :=
  match tables with
  | [] => Return acc
  | table :: rest =>
    if decide (table = "/.*/") then
      allTables ks visit acc
    else
      match mjoin (schema tmc !! (ks +:+ "." +:+ table)) with
      | None => getTables visit tmc ks rest acc
      | Some d => getTables visit tmc ks rest (acc ++ TableDefinitions d)%list
      end
  end.

(** [GetSchema], with the order [visit] in which this call would range over
    [tmc.schema]: some arrangement of the entries of the map. *)
Definition GetSchema (visit : list (string * option SchemaDefinition))
    (tablet : Tablet) (request : GetSchemaRequest)
    (tmc : testMaterializerTMClient)
  : go (SchemaDefinition * option string) * testMaterializerTMClient :=
  match Alias tablet with
  | None => (Panics nil_dereference, tmc)
  | Some alias =>
    let tmc' := schemaRequested (Uid alias) tmc in
    match getTables visit tmc' (Keyspace tablet) (Tables request) [] with
    | Panics msg => (Panics msg, tmc')
    | Return defs => (Return ({| TableDefinitions := defs |}, None), tmc')
    end
  end.

Definition expectVRQuery (tabletID : Z) (q : string) (res : Result)
    (tmc : testMaterializerTMClient) : testMaterializerTMClient :=
  {| schema := schema tmc;
     vrQueries :=
       <[tabletID := (default [] (vrQueries tmc !! tabletID)
                      ++ [{| query := q; result := ResultToProto3 res |}])%list]>
         (vrQueries tmc);
     getSchemaCounts := getSchemaCounts tmc |}.

Definition VReplicationExec (tablet : Tablet) (q : string)
    (tmc : testMaterializerTMClient)
  : go (option QueryResult * option string) * testMaterializerTMClient :=
  match Alias tablet with
  | None => (Panics nil_dereference, tmc)
  | Some alias =>
    let uid := Z.of_N (Uid alias) in
    match default [] (vrQueries tmc !! uid) with
    | [] =>
      (Return (None, Some ("tablet " +:+ fmt_tablet tablet
                           +:+ " does not expect any more queries: " +:+ q)), tmc)
    | qr :: rest =>
      let matched :=
        match query qr with
        | EmptyString => Panics (Fuzz.index_out_of_range 0 0)
        | String c pattern =>
          if decide (c = "/"%char) then MustCompile_MatchString pattern q
          else Return (bool_decide (q = query qr))
        end in
      match matched with
      | Panics msg => (Panics msg, tmc)
      | Return false =>
        (Return (None, Some ("tablet " +:+ fmt_tablet tablet
                             +:+ ":" +:+ String "010" "unexpected query"
                             +:+ String "010" q +:+ String "010" "want:"
                             +:+ String "010" (query qr))), tmc)
      | Return true =>
        (Return (Some (result qr), None),
         {| schema := schema tmc;
            vrQueries := <[uid := rest]> (vrQueries tmc);
            getSchemaCounts := getSchemaCounts tmc |})
      end
    end
  end.

Definition ExecuteFetchAsDba (tablet : Tablet) (usePool : bool)
    (req : ExecuteFetchAsDbaRequest) (tmc : testMaterializerTMClient)
  : go (option QueryResult * option string) * testMaterializerTMClient :=
  VReplicationExec tablet (Query req) tmc.

(** The loop of [ApplySchema] over the statements. *)
Fixpoint applyStatements (tablet : Tablet) (stmts : list string)
    (tmc : testMaterializerTMClient)
  : go (option SchemaChangeResult * option string) * testMaterializerTMClient :=
  match stmts with
  | [] => (Return (None, None), tmc)
  | stmt :: rest =>
    match ExecuteFetchAsDba tablet false
            {| Query := stmt; MaxRows := 0; ReloadSchema := true |} tmc with
    | (Panics msg, tmc') => (Panics msg, tmc')
    | (Return (_, Some err), tmc') => (Return (None, Some err), tmc')
    | (Return (_, None), tmc') => applyStatements tablet rest tmc'
    end
  end.

Definition ApplySchema (tablet : Tablet) (change : SchemaChange)
    (tmc : testMaterializerTMClient)
  : go (option SchemaChangeResult * option string) * testMaterializerTMClient :=
  applyStatements tablet (Split ";"%char (SQL change)) tmc.

(** The messages [verifyQueries] hands to [t.Errorf], one for each tablet
    that still has queries waiting; [visit] lists the entries of
    [tmc.vrQueries] in the order the [range] over the map visits them. *)
Definition verifyQueries (visit : list (Z * list queryResult)) : list string :=
  omap (fun '(tabletID, qrs) =>
          match qrs with
          | [] => None
          | _ =>
            Some ("tablet " +:+ Itoa tabletID
                  +:+ ": found queries that were expected but never got executed by the test: "
                  +:+ fmt_strings (query <$> qrs))
          end)
       visit.

End Client.

Arguments queryResult : clear implicits.
Arguments testMaterializerTMClient : clear implicits.

End Wrangler.

(** ** Counting VDiffs in the end-to-end test *)

Module VDiffTest.

(** The closure [uuidCount] of [testDelete]: the UUIDs are put into a map
    used as a set, and its size is returned. *)
Definition uuidCount (uuids : list string) : Z :=
  Z.of_nat (size (list_to_set uuids : gset string)).

End VDiffTest.

(** ** Stand-ins for the packages the harness and the client call into *)

Module Standins.
Import Evalengine Samples.

(** A [compareNumeric] that fails on every pair. *)
Definition compareFails (l r : EvalResult) : go (Z * option error) :=
  Return (0, Some boom).

(** The text before the first occurrence of [marker]. *)
Fixpoint before (marker s : string) : option string :=
  if String.prefix marker s then Some ""
  else match s with
       | EmptyString => None
       | String c s' => String c <$> before marker s'
       end.

(** A stand-in for [extractError.FindStringSubmatch]: the whole text and the
    message in front of the errno, with the other groups left empty. *)
Definition submatch (s : string) : option (list string) :=
  (fun message => [s; message; ""; ""; ""]) <$> before " (errno " s.

(** Stand-ins for the two known patterns. *)
Definition known : list (string -> bool) :=
  [ (fun s => Fuzz.Contains s "value is out of range in '");
    (fun s => Fuzz.Contains s "Operand should contain ") ].

(** A parser that accepts what starts with SELECT, and a MySQL that does the
    same and answers every query with 1. *)
Definition parse (q : string) : go (string * option string) :=
  if String.prefix "SELECT " q then Return (q, None)
  else Return (q, Some "syntax error at position 1").

Definition fetch (q : string) : string * option string :=
  if String.prefix "SELECT " q then ("1", None)
  else ("", Some "You have an error in your SQL syntax; check the manual (errno 1064) (sqlstate 42000) during query: x").

(** A converter that turns every expression into [NULL <=> NULL]. *)
Definition convert (ast : string)
  : go (option (ComparisonExpr trace unit) * option string) :=
  Return (Some (mkComparisonExpr (Some NullSafeEqualOp)
                  (literal "l" resultNull) (literal "r" resultNull)), None).

(** A converter that turns every expression into [1 = 1]. *)
Definition convertEqual (ast : string)
  : go (option (ComparisonExpr trace unit) * option string) :=
  Return (Some (mkComparisonExpr (Some EqualOp)
                  (literal "l" (int64 1)) (literal "r" (int64 1))), None).

(** A converter that refuses every expression. *)
Definition convertRefuses (ast : string)
  : go (option (ComparisonExpr trace unit) * option string) :=
  Return (None, Some "unsupported").

(** Evaluation of a converted expression from an empty trace; an error is
    shown by its message. *)
Definition evaluate (e : option (ComparisonExpr trace unit))
  : go (EvalResult * option string) :=
  match e with
  | None => Panics "invalid memory address or nil pointer dereference"
  | Some c =>
    match (ComparisonExpr_Evaluate compareIval keepNumeric c tt []).1 with
    | Return (v, err) => Return (v, err_message <$> err)
    | Panics msg => Panics msg
    end
  end.

Definition showValue (v : EvalResult) : string := pretty (ival v).

Import Wrangler.

(** A pattern without special characters matches where it occurs. *)
Definition occurs (pattern s : string) : go bool := Return (Fuzz.Contains s pattern).

Definition tabletName (t : Tablet) : string := Keyspace t +:+ "/" +:+ Shard t.

Definition tablet200 : Tablet :=
  {| Alias := Some {| Cell := "cell"; Uid := 200 |}; Keyspace := "ks"; Shard := "0" |}.

Definition emptyClient : testMaterializerTMClient string :=
  newTestMaterializerTMClient.

(** A client that expects two queries on tablet 200. *)
Definition expecting : testMaterializerTMClient string :=
  expectVRQuery id 200 "insert into t values (1)" "second"
    (expectVRQuery id 200 "create table t (id int)" "first" emptyClient).

(** A client that knows two tables of keyspace [ks] and one of [other]. *)
Definition withSchema : testMaterializerTMClient string :=
  {| schema :=
       <["ks.t1" := Some {| TableDefinitions := [mkTableDefinition "t1" "t1_schema"] |}]>
       (<["ks.t2" := Some {| TableDefinitions := [mkTableDefinition "t2" "t2_schema"] |}]>
       (<["other.t3" := Some {| TableDefinitions := [mkTableDefinition "t3" "t3_schema"] |}]> ∅));
     vrQueries := ∅; getSchemaCounts := ∅ |}.

(** The client [expecting] after tablet 200 has sent the two queries it
    was expected to send. *)
Definition drained : testMaterializerTMClient string :=
  (VReplicationExec occurs tabletName tablet200 "insert into t values (1)"
     (VReplicationExec occurs tabletName tablet200 "create table t (id int)"
        expecting).2).2.

End Standins.

(** * Properties of the comparison kernel *)

Section KernelFacts.
Import Evalengine.

Context {W ExpressionEnv : Type}.
Variable compareNumeric : EvalResult -> EvalResult -> go (Z * option error).
Variable makeNumeric : EvalResult -> EvalResult.

Local Abbreviation eval := (@ComparisonExpr_Evaluate W ExpressionEnv compareNumeric makeNumeric).
Local Abbreviation cmp := (executeComparison compareNumeric makeNumeric).

(** When both operands evaluate without error, the pair handed on is the
    pair of their values and the state is the one the right operand left. *)
Lemma evaluateComparisonExprs_ok (c : ComparisonExpr W ExpressionEnv) env w l w1 r w2 :
  Evaluate (Left c) env w = (Return (l, None), w1) ->
  Evaluate (Right c) env w1 = (Return (r, None), w2) ->
  evaluateComparisonExprs c env w = (Return (l, r, None), w2).
Proof.
  intros Hl Hr. unfold evaluateComparisonExprs, bind.
  rewrite Hl. cbn. rewrite Hr. reflexivity.
Qed.

Lemma integral_not_text t : IsIntegral t = true -> IsText t = false.
Proof. destruct t; simpl; congruence. Qed.

(** Two integers are handed to [compareNumeric] as they are. *)
Lemma integers_compare_numerically (l r : EvalResult) :
  evalResultsAreInteger l r = true ->
  cmp l r = compareNumeric l r.
Proof.
  intros Hint. unfold executeComparison. rewrite Hint.
  apply andb_true_iff in Hint as [Hl Hr].
  unfold evalResultsAreString. by rewrite (integral_not_text _ Hl).
Qed.

(** C1, evaluated on the code: [<=>] is exempt from the NULL shortcut, so
    whenever both operands evaluate without error (NULL or not) the
    expression reaches [NullSafeEqualOp.Evaluate], whose body is
    [panic("implement me")]: no Int32 1 or 0 is returned. *)
Theorem nullsafe_equal_is_unimplemented
    (c : ComparisonExpr W ExpressionEnv) env w l w1 r w2 :
  Op c = Some NullSafeEqualOp ->
  Evaluate (Left c) env w = (Return (l, None), w1) ->
  Evaluate (Right c) env w1 = (Return (r, None), w2) ->
  eval c env w = (Panics "implement me", w2).
Proof.
  intros Hop Hl Hr. unfold ComparisonExpr_Evaluate. rewrite Hop.
  unfold bind. rewrite (evaluateComparisonExprs_ok _ _ _ _ _ _ _ Hl Hr).
  cbn. rewrite andb_false_r. reflexivity.
Qed.

(** C2: for every operator other than [<=>], if both operands evaluate
    without error and at least one of the two values has type NULL, the
    expression evaluates to [resultNull] with no error.  The operator is
    not consulted: the result is the same for the operators whose
    [Evaluate] panics and for every [compareNumeric]. *)
Theorem null_operand_gives_null
    (c : ComparisonExpr W ExpressionEnv) op env w l w1 r w2 :
  Op c = Some op ->
  op <> NullSafeEqualOp ->
  Evaluate (Left c) env w = (Return (l, None), w1) ->
  Evaluate (Right c) env w1 = (Return (r, None), w2) ->
  typ l = Null \/ typ r = Null ->
  hasNullEvalResult l r = true /\
  eval c env w = (Return (resultNull, None), w2) /\
  typ resultNull = Null.
Proof.
  intros Hop Hne Hl Hr Hnull.
  assert (Hhas : hasNullEvalResult l r = true).
  { unfold hasNullEvalResult. apply orb_true_iff.
    destruct Hnull as [H | H]; [left | right]; by apply bool_decide_eq_true. }
  split; [exact Hhas | split; [| reflexivity]].
  unfold ComparisonExpr_Evaluate. rewrite Hop.
  unfold bind. rewrite (evaluateComparisonExprs_ok _ _ _ _ _ _ _ Hl Hr).
  cbn. rewrite Hhas. destruct op; try reflexivity. congruence.
Qed.

(** C3, evaluated on the code: for a text value or a decimal value [x],
    [executeComparison x x] panics with "not implemented yet" instead of
    returning 0, so the ordered comparison is not reflexive (nor
    antisymmetric) on every supported type tag. *)
Theorem compare_with_itself_unimplemented (x : EvalResult) :
  typ x = VarChar \/ typ x = Decimal ->
  cmp x x = Panics "not implemented yet" /\
  cmp x x <> Return (0, None).
Proof.
  intros Ht.
  assert (H : cmp x x = Panics "not implemented yet").
  { unfold executeComparison, evalResultsAreString, evalResultsAreInteger,
      needsFloatHandling, needsDecimalHandling.
    destruct Ht as [-> | ->]; reflexivity. }
  split; [exact H | rewrite H; discriminate].
Qed.

(** C4, evaluated on the code: when one operand is a decimal and the
    other a decimal or an integer, [executeComparison] reaches the
    decimal case, whose body is [panic("not implemented yet")]: no sign
    is returned. *)
Theorem decimal_comparison_unimplemented (l r : EvalResult) :
  typ l = Decimal /\ (typ r = Decimal \/ IsIntegral (typ r) = true) \/
  typ r = Decimal /\ (typ l = Decimal \/ IsIntegral (typ l) = true) ->
  needsDecimalHandling l r = true /\
  cmp l r = Panics "not implemented yet".
Proof.
  intros H.
  unfold executeComparison, evalResultsAreString, evalResultsAreInteger,
    needsFloatHandling, needsDecimalHandling.
  destruct l as [tl il bl], r as [tr ir br]; cbn in H |- *.
  destruct tl, tr; cbn in H |- *;
    first [ split; reflexivity | exfalso; intuition congruence ].
Qed.

(** C5, evaluated on the code: when both operands are text,
    [executeComparison] takes its first case, whose body is
    [panic("not implemented yet")]: no collation is consulted and no sign
    is returned. *)
Theorem text_comparison_unimplemented (l r : EvalResult) :
  IsText (typ l) = true ->
  IsText (typ r) = true ->
  evalResultsAreString l r = true /\
  cmp l r = Panics "not implemented yet".
Proof.
  intros Hl Hr. unfold executeComparison, evalResultsAreString.
  rewrite Hl, Hr. split; reflexivity.
Qed.

(** C9: a comparison expression whose [Op] is nil evaluates to the zero
    [EvalResult] and an INTERNAL error with the message "a comparison
    expression needs a comparison operator"; the process state is
    untouched whatever the operands are, so neither is evaluated. *)
Theorem nil_operator_is_an_error (c : ComparisonExpr W ExpressionEnv) env w :
  Op c = None ->
  eval c env w =
    (Return (EvalResult_zero,
             Some (Errorf Code_INTERNAL
                     "a comparison expression needs a comparison operator")),
     w).
Proof.
  intros Hop. unfold ComparisonExpr_Evaluate. rewrite Hop. reflexivity.
Qed.

(** C10: operands are evaluated left to right and an error stops the
    evaluation.  If the left operand fails, its error comes back with
    zero results in the state the left operand left, whatever the right
    operand is; if the left operand succeeds, the right one runs in the
    state the left one left, and its error comes back with zero results
    before any operator is applied. *)
Theorem operands_left_to_right (c : ComparisonExpr W ExpressionEnv) env w :
  (forall v e w1,
     Evaluate (Left c) env w = (Return (v, Some e), w1) ->
     evaluateComparisonExprs c env w
       = (Return (EvalResult_zero, EvalResult_zero, Some e), w1) /\
     forall op, Op c = Some op ->
       eval c env w = (Return (EvalResult_zero, Some e), w1)) /\
  (forall l w1 v e w2,
     Evaluate (Left c) env w = (Return (l, None), w1) ->
     Evaluate (Right c) env w1 = (Return (v, Some e), w2) ->
     evaluateComparisonExprs c env w
       = (Return (EvalResult_zero, EvalResult_zero, Some e), w2) /\
     forall op, Op c = Some op ->
       eval c env w = (Return (EvalResult_zero, Some e), w2)).
Proof.
  split.
  - intros v e w1 Hl.
    assert (H : evaluateComparisonExprs c env w
                = (Return (EvalResult_zero, EvalResult_zero, Some e), w1)).
    { unfold evaluateComparisonExprs, bind. rewrite Hl. reflexivity. }
    split; [exact H |].
    intros op Hop. unfold ComparisonExpr_Evaluate, bind. rewrite Hop, H.
    reflexivity.
  - intros l w1 v e w2 Hl Hr.
    assert (H : evaluateComparisonExprs c env w
                = (Return (EvalResult_zero, EvalResult_zero, Some e), w2)).
    { unfold evaluateComparisonExprs, bind. rewrite Hl. cbn. rewrite Hr.
      reflexivity. }
    split; [exact H |].
    intros op Hop. unfold ComparisonExpr_Evaluate, bind. rewrite Hop, H.
    reflexivity.
Qed.

End KernelFacts.

(** ** The kernel on concrete expressions *)

Section KernelRuns.
Import Evalengine Samples.

Local Abbreviation run := (@ComparisonExpr_Evaluate trace unit compareIval keepNumeric).
Local Abbreviation expr := (@mkComparisonExpr trace unit).

(** [NULL <=> NULL] panics after evaluating both operands. *)
Lemma nullsafe_equal_is_unimplemented_witness :
  run (expr (Some NullSafeEqualOp) (literal "l" resultNull) (literal "r" resultNull))
      tt []
  = (Panics "implement me", ["l"; "r"]).
Proof.
  apply (nullsafe_equal_is_unimplemented compareIval keepNumeric
           _ tt [] resultNull ["l"] resultNull ["l"; "r"]); reflexivity.
Defined.

(** [NULL IN 1] is NULL although [InOp.Evaluate] would panic. *)
Lemma null_operand_gives_null_witness :
  hasNullEvalResult resultNull (int64 1) = true /\
  run (expr (Some InOp) (literal "l" resultNull) (literal "r" (int64 1))) tt []
  = (Return (resultNull, None), ["l"; "r"]) /\
  typ resultNull = Null.
Proof.
  apply (null_operand_gives_null compareIval keepNumeric
           _ InOp tt [] resultNull ["l"] (int64 1) ["l"; "r"]);
    [reflexivity | discriminate | reflexivity | reflexivity | left; reflexivity].
Defined.

(** ['foo'] compared with itself. *)
Lemma compare_with_itself_unimplemented_witness :
  executeComparison compareIval keepNumeric (text "foo") (text "foo")
    = Panics "not implemented yet" /\
  executeComparison compareIval keepNumeric (text "foo") (text "foo")
    <> Return (0, None).
Proof.
  apply (compare_with_itself_unimplemented compareIval keepNumeric (text "foo")).
  left; reflexivity.
Defined.

(** The decimal [1.5] against the integer [1]. *)
Lemma decimal_comparison_unimplemented_witness :
  needsDecimalHandling (decimal "1.5") (int64 1) = true /\
  executeComparison compareIval keepNumeric (decimal "1.5") (int64 1)
    = Panics "not implemented yet".
Proof.
  apply (decimal_comparison_unimplemented compareIval keepNumeric
           (decimal "1.5") (int64 1)).
  left; split; [reflexivity | right; reflexivity].
Defined.

(** ['foo'] against ['FOO']. *)
Lemma text_comparison_unimplemented_witness :
  evalResultsAreString (text "foo") (text "FOO") = true /\
  executeComparison compareIval keepNumeric (text "foo") (text "FOO")
    = Panics "not implemented yet".
Proof.
  apply (text_comparison_unimplemented compareIval keepNumeric
           (text "foo") (text "FOO")); reflexivity.
Defined.

(** Without an operator nothing is noted in the trace, even with operands
    that would panic. *)
Lemma nil_operator_is_an_error_witness :
  run (expr None (crashing "l") (crashing "r")) tt []
  = (Return (EvalResult_zero,
             Some (Errorf Code_INTERNAL
                     "a comparison expression needs a comparison operator")),
     []).
Proof.
  apply (nil_operator_is_an_error compareIval keepNumeric
           (expr None (crashing "l") (crashing "r")) tt []).
  reflexivity.
Defined.

(** A failing left operand: only ["l"] is noted, the panicking right operand
    is not reached.  A failing right operand: ["l"] then ["r"] are noted and
    the panicking operator is not reached. *)
Lemma operands_left_to_right_witness :
  run (expr (Some EqualOp) (failing "l" boom) (crashing "r")) tt []
    = (Return (EvalResult_zero, Some boom), ["l"]) /\
  run (expr (Some LikeOp) (literal "l" (int64 1)) (failing "r" boom)) tt []
    = (Return (EvalResult_zero, Some boom), ["l"; "r"]).
Proof.
  split.
  - exact (proj2 (proj1 (operands_left_to_right compareIval keepNumeric
                    (expr (Some EqualOp) (failing "l" boom) (crashing "r")) tt [])
             EvalResult_zero boom ["l"] eq_refl) EqualOp eq_refl).
  - exact (proj2 (proj2 (operands_left_to_right compareIval keepNumeric
                    (expr (Some LikeOp) (literal "l" (int64 1)) (failing "r" boom)) tt [])
             (int64 1) ["l"] EvalResult_zero boom ["l"; "r"] eq_refl eq_refl)
             LikeOp eq_refl).
Defined.

End KernelRuns.

(** * Properties of the VDiff bookkeeping *)

Section ListFacts.
Context {A : Type}.

Lemma filter_fmap_commute (P : A -> Prop) `{forall x, Decision (P x)}
    (g : A -> A) (l : list A) :
  (forall x, P (g x) <-> P x) ->
  filter P (g <$> l) = g <$> filter P l.
Proof.
  intros Hg. induction l as [| x l IH]; [reflexivity |].
  rewrite fmap_cons, !filter_cons.
  destruct (decide (P (g x))) as [Hp | Hp], (decide (P x)) as [Hq | Hq].
  - rewrite fmap_cons. by f_equal.
  - destruct Hq. by apply Hg.
  - destruct Hp. by apply Hg.
  - done.
Qed.




Lemma filter_none (P : A -> Prop) `{forall x, Decision (P x)} (l : list A) :
  Forall (fun x => ~ P x) l -> filter P l = [].
Proof.
  induction 1 as [| x l Hx Hl IH]; [reflexivity |].
  rewrite filter_cons_False by done. exact IH.
Qed.


End ListFacts.

Section StopFacts.
Import VDiff.

(** Rewriting rows in place does not change which rows belong to a run,
    provided the rewrite keeps the UUID. *)
Lemma run_rows_fmap (u : string) (g : sidecar -> sidecar) (h : vdiff_row -> vdiff_row)
    (cl : cluster) :
  (forall v, has_uuid u (h v) <-> has_uuid u v) ->
  (forall sc, vdiff (g sc) = h <$> vdiff sc) ->
  run_rows u (on_db g <$> cl) = (fun r => (r.1, h r.2)) <$> run_rows u cl.
Proof.
  intros Hh Hg. unfold run_rows.
  induction cl as [| tb cl IH]; [reflexivity |].
  rewrite fmap_cons, !bind_cons, fmap_app, IH. f_equal.
  cbn. rewrite Hg, (filter_fmap_commute _ _ _ Hh), <- !list_fmap_compose.
  reflexivity.
Qed.

Lemma derived_state_all_stopped (sts : list vdiff_state) :
  sts <> [] -> Forall (fun st => st = stopped) sts ->
  derived_state sts = stopped.
Proof.
  intros Hne Hall. unfold derived_state.
  destruct sts as [| st sts]; [done |].
  apply Forall_cons in Hall as [-> Hall].
  assert (Hin : forall x, x ∈ stopped :: sts -> x = stopped).
  { intros x [-> | Hx]%elem_of_cons; [done |].
    by apply (proj1 (Forall_forall _ _) Hall). }
  repeat case_decide;
    repeat match goal with
    | H : Forall _ (stopped :: _) |- _ => apply Forall_cons in H as [? _]
    | H : _ ∈ stopped :: _ |- _ => apply Hin in H
    | H : stopped ∉ stopped :: _ |- _ => destruct H; left
    end; done.
Qed.

Lemma run_rows_has_uuid (u : string) (cl : cluster) (r : string * vdiff_row) :
  r ∈ run_rows u cl -> has_uuid u r.2.
Proof.
  unfold run_rows. intros (tb & Hr & _)%list_elem_of_bind.
  apply list_elem_of_fmap in Hr as (v & -> & Hv).
  by apply list_elem_of_filter in Hv as [Hv _].
Qed.

(** The rows of run [u] after [stop]: the rows before, each one stopped
    with [last_error] cleared. *)
Lemma run_rows_stop (now : nat) (u : string) (cl : cluster) :
  run_rows u (stop now u cl)
  = (fun r => (r.1, set_vdiff stopped (vd_started_at r.2) None None
                      (vd_rows_compared r.2) r.2)) <$> run_rows u cl.
Proof.
  unfold stop, transition.
  erewrite run_rows_fmap; [| | intros sc; reflexivity].
  - apply Forall_fmap_ext_1, Forall_forall. intros r Hr%run_rows_has_uuid.
    cbn. by rewrite decide_True.
  - intros v. cbn. by destruct (decide (has_uuid u v)).
Qed.

(** C8: if run [u] exists on some shard, then after [stop] the [show]
    output for [u] reports the state stopped and carries no [Errors]
    field, whatever [last_error] held before. *)
Theorem stop_reports_stopped_without_errors (now : nat) (u : string) (cl : cluster) :
  run_rows u cl <> [] ->
  exists r, show u (stop now u cl) = Some r /\
            UUID r = u /\ State r = stopped /\ Errors r = [].
Proof.
  intros Hrun. unfold show, errors. rewrite run_rows_stop.
  set (h := fun r : string * vdiff_row =>
              (r.1, set_vdiff stopped (vd_started_at r.2) None None
                      (vd_rows_compared r.2) r.2)).
  destruct (h <$> run_rows u cl) as [| r' rows'] eqn:E.
  { by apply fmap_nil_inv in E. }
  rewrite <- E. eexists. split; [reflexivity |].
  cbn [UUID State Errors]. split; [reflexivity |]. split.
  - rewrite <- list_fmap_compose. apply derived_state_all_stopped.
    + by intros ?%fmap_nil_inv.
    + apply Forall_fmap, Forall_forall. by intros x _.
  - clear. induction (run_rows u cl) as [| [sh v] l IH]; [reflexivity |].
    exact IH.
Qed.

End StopFacts.

Section OrphanFacts.
Import VDiff.

Lemma ids_where_known (P : vdiff_row -> Prop) `{forall v, Decision (P v)}
    (sc : sidecar) (i : nat) :
  i ∈ ids_where P sc -> i ∈ (vd_id <$> vdiff sc).
Proof.
  unfold ids_where. intros (v & -> & Hv)%list_elem_of_fmap.
  apply list_elem_of_fmap_2. by apply list_elem_of_filter in Hv as [_ Hv].
Qed.

(** A store stays free of orphans when the ids of its [vdiff] rows and the
    parents of its [vdiff_table] rows stay as they are and the log only
    grows by entries for known ids. *)
Lemma orphan_free_rewrite (sc sc' : sidecar) (more : list vdiff_log_row) :
  vd_id <$> vdiff sc' = vd_id <$> vdiff sc ->
  vdt_vdiff_id <$> vdiff_table sc' = vdt_vdiff_id <$> vdiff_table sc ->
  vdiff_log sc' = (vdiff_log sc ++ more)%list ->
  Forall (fun l => vdl_vdiff_id l ∈ (vd_id <$> vdiff sc)) more ->
  orphan_free sc -> orphan_free sc'.
Proof.
  intros Hids Htabs Hlog Hmore [Ht Hl]. unfold orphan_free.
  rewrite Hids, Hlog. split.
  - apply Forall_forall. intros t Hin.
    assert (Hid : vdt_vdiff_id t ∈ vdt_vdiff_id <$> vdiff_table sc')
      by by apply list_elem_of_fmap_2.
    rewrite Htabs in Hid. apply list_elem_of_fmap in Hid as (t0 & -> & Ht0).
    by apply (proj1 (Forall_forall _ _) Ht).
  - by apply Forall_app_2.
Qed.

Lemma fmap_if_preserve {A B} (key : A -> B) (P : A -> Prop)
    `{forall x, Decision (P x)} (f : A -> A) (l : list A) :
  (forall x, key (f x) = key x) ->
  key <$> ((fun x => if decide (P x) then f x else x) <$> l) = key <$> l.
Proof.
  intros Hkey. rewrite <- list_fmap_compose.
  apply Forall_fmap_ext_1, Forall_forall. intros x _. cbn.
  by destruct (decide (P x)).
Qed.

Lemma logged_ids_known (P : vdiff_row -> Prop) `{forall v, Decision (P v)}
    (sc : sidecar) (now : nat) (msg : string) :
  Forall (fun l => vdl_vdiff_id l ∈ (vd_id <$> vdiff sc))
         ((fun i => mkVdiffLog i now msg) <$> ids_where P sc).
Proof.
  apply Forall_fmap, Forall_forall. intros i Hi. cbn.
  by apply ids_where_known in Hi.
Qed.

Lemma orphan_free_transition now (P : vdiff_row -> Prop)
    `{forall v, Decision (P v)} f st msg sc :
  (forall v, vd_id (f v) = vd_id v) ->
  orphan_free sc -> orphan_free (transition now P f st msg sc).
Proof.
  intros Hf. eapply orphan_free_rewrite; cbn.
  - by apply fmap_if_preserve.
  - by apply fmap_if_preserve.
  - reflexivity.
  - apply logged_ids_known.
Qed.

Lemma orphan_free_run_differ_on now u tb :
  orphan_free (db tb) -> orphan_free (db (run_differ_on now u tb)).
Proof.
  eapply orphan_free_rewrite; cbn.
  - by apply fmap_if_preserve.
  - by apply fmap_if_preserve.
  - reflexivity.
  - apply logged_ids_known.
Qed.

Lemma orphan_free_simulate_error_on u sc :
  orphan_free sc -> orphan_free (simulate_error_on u sc).
Proof.
  apply (orphan_free_rewrite _ _ []); cbn.
  - by apply fmap_if_preserve.
  - by apply fmap_if_preserve.
  - by rewrite app_nil_r.
  - constructor.
Qed.

Lemma orphan_free_create_on now u ks wf tables sc :
  orphan_free sc -> orphan_free (create_on now u ks wf tables sc).
Proof.
  intros [Ht Hl]. unfold orphan_free, create_on. cbn.
  rewrite fmap_app. cbn. split; apply Forall_app_2.
  - eapply Forall_impl; [exact Ht |]. intros t Hin. apply elem_of_app. by left.
  - apply Forall_fmap, Forall_forall. intros n _. cbn.
    apply elem_of_app. right. left.
  - eapply Forall_impl; [exact Hl |]. intros t Hin. apply elem_of_app. by left.
  - repeat constructor. cbn. apply elem_of_app. right. left.
Qed.

(** Removing parents together with the children that point at them leaves
    no orphan behind. *)
Lemma orphan_free_purge (P : vdiff_row -> Prop) `{forall v, Decision (P v)} sc :
  orphan_free sc -> orphan_free (purge P sc).
Proof.
  intros [Ht Hl].
  assert (Hkeep : forall i, i ∈ (vd_id <$> vdiff sc) -> i ∉ ids_where P sc ->
            i ∈ (vd_id <$> filter (fun v => ~ P v) (vdiff sc))).
  { intros i (v & -> & Hv)%list_elem_of_fmap Hout.
    apply list_elem_of_fmap_2, list_elem_of_filter. split; [| done].
    intros HP. apply Hout. unfold ids_where.
    apply list_elem_of_fmap_2, list_elem_of_filter. done. }
  unfold orphan_free, purge. cbn. split; apply Forall_forall.
  - intros t [Hout Hin]%list_elem_of_filter. apply Hkeep; [| done].
    by apply (proj1 (Forall_forall _ _) Ht).
  - intros l [Hout Hin]%list_elem_of_filter. apply Hkeep; [| done].
    by apply (proj1 (Forall_forall _ _) Hl).
Qed.

Lemma orphan_free_on_db (g : sidecar -> sidecar) (cl : cluster) :
  (forall sc, orphan_free sc -> orphan_free (g sc)) ->
  orphan_free_everywhere cl -> orphan_free_everywhere (on_db g <$> cl).
Proof.
  intros Hg Hcl. apply Forall_fmap. eapply Forall_impl; [exact Hcl |].
  intros tb Htb. cbn. by apply Hg.
Qed.

(** Every command keeps every shard free of orphans. *)
Lemma orphan_free_step now c cl :
  orphan_free_everywhere cl -> orphan_free_everywhere (step now c cl).
Proof.
  intros Hcl. destruct c; cbn.
  - unfold create. case_decide; [done |].
    apply orphan_free_on_db; [| done]. apply orphan_free_create_on.
  - apply orphan_free_on_db; [| done]. intros sc. by apply orphan_free_transition.
  - apply orphan_free_on_db; [| done]. intros sc. by apply orphan_free_transition.
  - apply orphan_free_on_db; [| done]. intros sc. apply orphan_free_purge.
  - apply orphan_free_on_db; [| done]. intros sc. apply orphan_free_purge.
  - apply Forall_fmap. eapply Forall_impl; [exact Hcl |].
    intros tb. apply orphan_free_run_differ_on.
  - apply Forall_fmap. eapply Forall_impl; [exact Hcl |].
    intros tb Htb. cbn. case_decide; [| done].
    cbn. by apply orphan_free_transition.
  - apply orphan_free_on_db; [| done]. intros sc. by apply orphan_free_transition.
  - apply orphan_free_on_db; [| done]. apply orphan_free_simulate_error_on.
  - apply Forall_fmap. eapply Forall_impl; [exact Hcl |]. by intros tb.
  - apply Forall_fmap. eapply Forall_impl; [exact Hcl |]. by intros tb.
Qed.

Lemma orphan_free_reachable cl : reachable cl -> orphan_free_everywhere cl.
Proof.
  induction 1 as [cl Hfresh | now c cl _ IH].
  - eapply Forall_impl; [exact Hfresh |]. intros tb ->.
    split; constructor.
  - by apply orphan_free_step.
Qed.

Lemma filter_filter_not {A} (P : A -> Prop) `{forall x, Decision (P x)} (l : list A) :
  filter P (filter (fun x => ~ P x) l) = [].
Proof.
  apply filter_none, Forall_forall. by intros x [Hx _]%list_elem_of_filter.
Qed.

(** After the purge nothing of the workflow is left on the shard. *)
Lemma swept_purge ks wf tb :
  swept ks wf tb (on_db (purge (of_workflow ks wf)) tb).
Proof.
  unfold swept, workflow_rows, orphan_query. cbn.
  rewrite (filter_filter_not (of_workflow ks wf)).
  rewrite (filter_filter_not (fun t => vdt_vdiff_id t ∈ ids_where (of_workflow ks wf) (db tb))).
  rewrite (filter_filter_not (fun l => vdl_vdiff_id l ∈ ids_where (of_workflow ks wf) (db tb))).
  done.
Qed.

(** C7: in every cluster that the commands can produce, no shard holds a
    [vdiff_table] or [vdiff_log] row without its parent [vdiff] row; and
    completing the parent workflow leaves, on every target shard, zero rows
    of the workflow in each of the three tables (so the query of
    [testNoOrphanedData] returns nothing), again without orphans. *)
Theorem complete_purges_and_no_orphans (ks wf : string) (cl : cluster) :
  reachable cl ->
  orphan_free_everywhere cl /\
  Forall2 (swept ks wf) cl (complete_workflow ks wf cl) /\
  orphan_free_everywhere (complete_workflow ks wf cl).
Proof.
  intros Hreach. pose proof (orphan_free_reachable _ Hreach) as Hfree.
  split; [exact Hfree |]. split.
  - unfold complete_workflow. apply Forall2_fmap_r, Forall_Forall2_diag.
    apply Forall_forall. intros tb _. apply swept_purge.
  - apply (orphan_free_step 0 (Complete ks wf)), Hfree.
Qed.

End OrphanFacts.

Section DifferFacts.
Import VDiff.

(** Two streams that hold the same rows: every row is compared once and
    none is mismatched. *)
Lemma merge_compare_same (s : list row) :
  forall (fuel : nat) (p : progress),
    (length s <= fuel)%nat ->
    compared (merge_compare fuel s s p) = (compared p + length s)%nat /\
    mismatched (merge_compare fuel s s p) = mismatched p /\
    last_pk (merge_compare fuel s s p) = from_option (Some ∘ pk) (last_pk p) (last s).
Proof.
  induction s as [| a s IH]; intros fuel p Hfuel.
  - destruct fuel; cbn; (split; [lia | split; [lia | reflexivity]]).
  - destruct fuel as [| fuel]; [cbn in Hfuel; lia |].
    cbn [merge_compare]. rewrite !decide_False by lia.
    destruct (IH fuel (matched a a p)) as (Hc & Hm & Hl); [cbn in Hfuel; lia |].
    rewrite Hc, Hm, Hl. cbn [matched compared mismatched last_pk length].
    rewrite decide_True by done. split; [lia | split; [lia |]].
    destruct s as [| b s]; [reflexivity |]. rewrite last_cons_cons.
    destruct (last (b :: s)) eqn:Hlast; [reflexivity |].
    by apply last_None in Hlast.
Qed.

Lemma merge_compare_S (fuel : nat) (s t : list row) (p : progress) :
  merge_compare (S fuel) s t p
  = match s, t with
    | [], [] => p
    | a :: s', [] => merge_compare fuel s' [] (extra a p)
    | [], b :: t' => merge_compare fuel [] t' (extra b p)
    | a :: s', b :: t' =>
      if decide (pk a < pk b) then merge_compare fuel s' t (extra a p)
      else if decide (pk b < pk a) then merge_compare fuel s t' (extra b p)
      else merge_compare fuel s' t' (matched a b p)
    end.
Proof. reflexivity. Qed.

Lemma merge_compare_more_fuel (fuel : nat) :
  forall (s t : list row) (p : progress),
    (length s + length t <= fuel)%nat ->
    merge_compare (S fuel) s t p = merge_compare fuel s t p.
Proof.
  induction fuel as [| fuel IH]; intros s t p Hlen.
  - destruct s, t; cbn in Hlen; try lia. reflexivity.
  - rewrite (merge_compare_S (S fuel)), (merge_compare_S fuel).
    destruct s as [| a s], t as [| b t]; cbn [length] in Hlen;
      repeat case_decide; try reflexivity; apply IH; cbn [length]; lia.
Qed.

(** The differ never runs out of fuel: with [length s + length t] steps
    the merge is over, and more fuel changes nothing. *)
Lemma merge_compare_enough_fuel (fuel : nat) (s t : list row) (p : progress) :
  (length s + length t <= fuel)%nat ->
  merge_compare fuel s t p = merge_compare (length s + length t) s t p.
Proof.
  induction 1 as [| fuel Hle IH]; [reflexivity |].
  by rewrite merge_compare_more_fuel.
Qed.






(** What it means for a scan on tablet [tb1] to compare just the rows
    [ins] brings to the table of [t] on shard [tb]; the table row may have
    changed state meanwhile. *)
Local Abbreviation scans_new_rows :=
  (fun (ins : string -> string -> list row) (tb tb1 : tablet)
       (t : vdiff_table_row) =>
     forall t', vdt_table_name t' = vdt_table_name t ->
                vdt_lastpk t' = vdt_lastpk t ->
                compared (scan tb1 t') = length (ins (shard tb) (vdt_table_name t))).



#[local] Instance pk_le_total : Total pk_le.
Proof. intros a b. unfold pk_le. lia. Qed.

#[local] Instance pk_le_transitive : Transitive pk_le.
Proof. intros a b c. unfold pk_le. lia. Qed.

(** In a sorted list, the last of the rows that pass a filter has the
    greatest key among them. *)
Lemma sorted_filter_last (P : row -> Prop) `{forall r, Decision (P r)}
    (l : list row) (m : row) :
  StronglySorted pk_le l ->
  last (filter P l) = Some m ->
  forall x, x ∈ filter P l -> pk x <= pk m.
Proof.
  induction 1 as [| a l Hsorted IH Hle]; intros Hlast x Hx.
  - by apply elem_of_nil in Hx.
  - rewrite filter_cons in Hlast, Hx.
    destruct (decide (P a)) as [Ha | Ha]; [| by apply IH].
    destruct (filter P l) as [| b k] eqn:Hk.
    + apply list_elem_of_singleton in Hx as ->.
      cbn in Hlast. injection Hlast as ->. lia.
    + rewrite last_cons_cons in Hlast.
      apply elem_of_cons in Hx as [-> | Hx]; [| by apply IH].
      assert (Hm : m ∈ filter P l) by (rewrite Hk; by apply last_Some_elem_of).
      apply list_elem_of_filter in Hm as [_ Hm].
      exact (proj1 (Forall_forall _ _) Hle m Hm).
Qed.

(** A pass of the differ over a table on which the target has caught up
    leaves no source row beyond the new checkpoint: the first half of
    [checkpoint_splits] is what a completed pass establishes. *)
Lemma diff_table_covers_source (tb : tablet) (t : vdiff_table_row) :
  target tb (vdt_table_name t) = source tb (vdt_table_name t) ->
  Forall (fun r => ~ beyond (vdt_lastpk (diff_table tb t)) r)
         (source tb (vdt_table_name t)).
Proof.
  intros Heq. unfold diff_table, scan. cbn [vdt_lastpk]. rewrite Heq.
  set (rows := source tb (vdt_table_name t)).
  set (cp := vdt_lastpk t).
  destruct (merge_compare_same (stream rows cp)
              (length (stream rows cp) + length (stream rows cp))
              {| compared := 0; mismatched := 0; last_pk := cp |})
    as (_ & _ & Hl); [lia |].
  rewrite Hl. cbn [last_pk]. clear Hl.
  assert (Hin : forall r, r ∈ rows -> beyond cp r -> r ∈ stream rows cp).
  { intros r Hr Hb. unfold stream. apply list_elem_of_filter. split; [done |].
    by rewrite merge_sort_Permutation. }
  apply Forall_forall. intros r Hr.
  destruct (last (stream rows cp)) as [m |] eqn:Hlast; cbn.
  - assert (Hm : beyond cp m).
    { apply last_Some_elem_of in Hlast. unfold stream in Hlast.
      by apply list_elem_of_filter in Hlast as [Hm _]. }
    destruct (decide (beyond cp r)) as [Hb | Hb].
    + pose proof (sorted_filter_last (beyond cp) (merge_sort pk_le rows) m
                    (StronglySorted_merge_sort pk_le rows) Hlast r (Hin r Hr Hb)).
      lia.
    + destruct cp as [c |]; cbn in Hb, Hm; [lia | done].
  - intros Hb. apply last_None in Hlast.
    pose proof (Hin r Hr Hb) as Hr'. rewrite Hlast in Hr'.
    by apply elem_of_nil in Hr'.
Qed.












End DifferFacts.

(** ** The bookkeeping on the scenario of the test *)

Section ScenarioRuns.
Import VDiff Scenario.

Lemma reachable_diffed : reachable diffed.
Proof. do 2 apply reachable_step. apply reachable_fresh. by repeat constructor. Qed.

Lemma reachable_errored : reachable errored.
Proof. apply reachable_step, reachable_diffed. Qed.





(** Completing workflow [customer.p1c2] after the simulated error. *)
Lemma complete_purges_and_no_orphans_witness :
  orphan_free_everywhere errored /\
  Forall2 (swept "customer" "p1c2") errored
          (complete_workflow "customer" "p1c2" errored) /\
  orphan_free_everywhere (complete_workflow "customer" "p1c2" errored).
Proof.
  apply (complete_purges_and_no_orphans "customer" "p1c2" errored).
  exact reachable_errored.
Defined.

(** Stopping the run that carries the deadlock in [last_error]. *)
Lemma stop_reports_stopped_without_errors_witness :
  exists r, show "u1" (stop 7 "u1" errored) = Some r /\
            UUID r = "u1" /\ State r = stopped /\ Errors r = [].
Proof.
  apply (stop_reports_stopped_without_errors 7 "u1" errored).
  vm_compute. discriminate.
Defined.

End ScenarioRuns.

(** * Further properties of the comparison kernel *)

Section KernelMore.
Import Evalengine.

Context {W ExpressionEnv : Type}.
Variable compareNumeric : EvalResult -> EvalResult -> go (Z * option error).
Variable makeNumeric : EvalResult -> EvalResult.

Local Abbreviation eval := (@ComparisonExpr_Evaluate W ExpressionEnv compareNumeric makeNumeric).
Local Abbreviation cmp := (executeComparison compareNumeric makeNumeric).
Local Abbreviation isTrue := (Op_IsTrue compareNumeric makeNumeric).
Local Abbreviation evaluate := (Op_Evaluate compareNumeric makeNumeric).

(** The operators whose methods are written out; the other seven are
    stubs. *)
Local Abbreviation implemented :=
  [EqualOp; NotEqualOp; LessThanOp; LessEqualOp; GreaterThanOp; GreaterEqualOp].

Ltac each_implemented H :=
  repeat (apply elem_of_cons in H as [-> | H]); [.. | by apply elem_of_nil in H].

(** Whatever the operator and the operands, a comparison expression that
    returns without an error returns one of the three package-level
    results: Int32 1, Int32 0 or NULL. *)
Theorem evaluate_returns_true_false_or_null
    (c : ComparisonExpr W ExpressionEnv) env w v w' :
  eval c env w = (Return (v, None), w') ->
  v = resultTrue \/ v = resultFalse \/ v = resultNull.
Proof.
  unfold ComparisonExpr_Evaluate, evaluateComparisonExprs, bind, ret, lift.
  destruct (Op c) as [op |]; [| intros [=]].
  destruct (Evaluate (Left c) env w) as [[[l [e |]] | m] w1]; try (intros [=]; fail).
  destruct (Evaluate (Right c) env w1) as [[[r [e |]] | m] w2]; try (intros [=]; fail).
  destruct (hasNullEvalResult l r && negb (isNullsafe op)).
  { intros [= <- _]. by right; right. }
  destruct op; cbn; try (intros [=]; fail);
    unfold EqualOp_Evaluate, NotEqualOp_Evaluate, LessThanOp_Evaluate,
      LessEqualOp_Evaluate, GreaterThanOp_Evaluate, GreaterEqualOp_Evaluate,
      evaluateBy, EqualOp_IsTrue, NotEqualOp_IsTrue, LessThanOp_IsTrue,
      LessEqualOp_IsTrue, GreaterThanOp_IsTrue, GreaterEqualOp_IsTrue, isTrueBy;
    destruct (cmp l r) as [[n [e |]] | m]; cbn; try (intros [=]; fail);
    match goal with |- context [negb ?b] => destruct b end; cbn;
    intros [= <- _]; auto.
Qed.

(** When the ordered comparison of two values returns a number without an
    error, the six implemented predicates are consistent with one another:
    exactly one of [<], [=], [>] holds, and [!=], [<=], [>=] are the
    negations of [=], [>], [<]. *)
Theorem order_predicates_are_consistent (l r : EvalResult) (n : Z) :
  cmp l r = Return (n, None) ->
  exists lt eq gt : bool,
    isTrue LessThanOp l r = Return (lt, None) /\
    isTrue EqualOp l r = Return (eq, None) /\
    isTrue GreaterThanOp l r = Return (gt, None) /\
    isTrue NotEqualOp l r = Return (negb eq, None) /\
    isTrue LessEqualOp l r = Return (negb gt, None) /\
    isTrue GreaterEqualOp l r = Return (negb lt, None) /\
    ((lt, eq, gt) = (true, false, false) \/
     (lt, eq, gt) = (false, true, false) \/
     (lt, eq, gt) = (false, false, true)).
Proof.
  intros Hcmp. exists (n <? 0), (n =? 0), (n >? 0).
  cbn. unfold EqualOp_IsTrue, NotEqualOp_IsTrue, LessThanOp_IsTrue,
    LessEqualOp_IsTrue, GreaterThanOp_IsTrue, GreaterEqualOp_IsTrue, isTrueBy.
  rewrite Hcmp.
  assert (Hle : (n <=? 0) = negb (n >? 0)).
  { rewrite Z.gtb_ltb. destruct (Z.leb_spec n 0), (Z.ltb_spec 0 n); cbn; lia. }
  assert (Hge : (n >=? 0) = negb (n <? 0)).
  { rewrite Z.geb_leb. destruct (Z.leb_spec 0 n), (Z.ltb_spec n 0); cbn; lia. }
  rewrite Hle, Hge. repeat split; try reflexivity.
  rewrite Z.gtb_ltb.
  destruct (Z.ltb_spec n 0), (Z.eqb_spec n 0), (Z.ltb_spec 0 n); auto; lia.
Qed.

(** For the six implemented operators [Evaluate] answers Int32 1 exactly
    when [IsTrue] answers true; the two methods of an operator never
    disagree. *)
Theorem evaluate_agrees_with_isTrue (op : ComparisonOp) (l r : EvalResult) :
  op ∈ implemented ->
  evaluate op l r = Return (resultTrue, None) <-> isTrue op l r = Return (true, None).
Proof.
  intros Hop. each_implemented Hop; cbn;
    unfold EqualOp_Evaluate, NotEqualOp_Evaluate, LessThanOp_Evaluate,
      LessEqualOp_Evaluate, GreaterThanOp_Evaluate, GreaterEqualOp_Evaluate,
      evaluateBy, EqualOp_IsTrue, NotEqualOp_IsTrue, LessThanOp_IsTrue,
      LessEqualOp_IsTrue, GreaterThanOp_IsTrue, GreaterEqualOp_IsTrue, isTrueBy;
    destruct (cmp l r) as [[n [e |]] | m]; cbn; try (split; intros [=]; fail);
    match goal with |- context [negb ?b] => destruct b end; cbn;
    split; (reflexivity || intros [=]).
Qed.

(** An error of the ordered comparison itself comes back unchanged, paired
    with Int32 0 (not with the zero [EvalResult] that accompanies an operand
    error), from [IsTrue] as [false] and from the whole expression in the
    state the right operand left. *)
Theorem comparison_error_comes_with_false
    (c : ComparisonExpr W ExpressionEnv) op env w l w1 r w2 n e :
  Op c = Some op ->
  op ∈ implemented ->
  Evaluate (Left c) env w = (Return (l, None), w1) ->
  Evaluate (Right c) env w1 = (Return (r, None), w2) ->
  hasNullEvalResult l r = false ->
  cmp l r = Return (n, Some e) ->
  isTrue op l r = Return (false, Some e) /\
  evaluate op l r = Return (resultFalse, Some e) /\
  eval c env w = (Return (resultFalse, Some e), w2).
Proof.
  intros Hc Hop Hl Hr Hnull Hcmp.
  assert (Htrue : isTrue op l r = Return (false, Some e)).
  { each_implemented Hop; cbn;
      unfold EqualOp_IsTrue, NotEqualOp_IsTrue, LessThanOp_IsTrue,
        LessEqualOp_IsTrue, GreaterThanOp_IsTrue, GreaterEqualOp_IsTrue, isTrueBy;
      by rewrite Hcmp. }
  assert (Heval : evaluate op l r = Return (resultFalse, Some e)).
  { each_implemented Hop; cbn in Htrue |- *;
      unfold EqualOp_Evaluate, NotEqualOp_Evaluate, LessThanOp_Evaluate,
        LessEqualOp_Evaluate, GreaterThanOp_Evaluate, GreaterEqualOp_Evaluate,
        evaluateBy; by rewrite Htrue. }
  split; [exact Htrue | split; [exact Heval |]].
  unfold ComparisonExpr_Evaluate, bind. rewrite Hc.
  rewrite (evaluateComparisonExprs_ok _ _ _ _ _ _ _ Hl Hr).
  cbn. rewrite Hnull. cbn. unfold lift. by rewrite Heval.
Qed.

(** Which case of [executeComparison] is taken does not depend on the
    order of the operands: if [compareNumeric] never panics, comparing [l]
    with [r] panics exactly when comparing [r] with [l] does, with the same
    message. *)
Theorem comparison_panics_symmetrically (l r : EvalResult) (m : string) :
  (forall a b, exists v, compareNumeric a b = Return v) ->
  cmp l r = Panics m <-> cmp r l = Panics m.
Proof.
  intros Htotal.
  assert (Hnum : forall a b, compareNumeric a b = Panics m <-> False).
  { intros a b. destruct (Htotal a b) as [v ->]. by split. }
  unfold executeComparison, evalResultsAreString, evalResultsAreInteger,
    needsFloatHandling, needsDecimalHandling.
  destruct l as [tl il bl], r as [tr ir br]. cbn [typ].
  destruct tl, tr; cbn; repeat case_bool_decide; try congruence; cbn;
    rewrite ?Hnum; reflexivity.
Qed.

(** The text of a comparison names its operator.  Calling [String] on an
    expression without an operator panics.  Otherwise, when the left
    operands of two expressions print alike, the expressions print alike
    only if they have the same operator and their right operands print
    alike too: no operator's text can be taken for another's. *)
Theorem comparison_text_names_the_operator (c c' : ComparisonExpr W ExpressionEnv) :
  (Op c = None -> exists m, ComparisonExpr_String c = Panics m) /\
  (forall s,
     ComparisonExpr_String c = Return s ->
     ComparisonExpr_String c' = Return s ->
     Expr_String (Left c) = Expr_String (Left c') ->
     Op c = Op c' /\ Expr_String (Right c) = Expr_String (Right c')).
Proof.
  unfold ComparisonExpr_String. split.
  - intros ->. eauto.
  - intros s. destruct (Op c) as [op |], (Op c') as [op' |];
      try (intros [=]; fail); try (intros _ [=]; fail).
    intros [= <-] [= Hsame] Hleft. rewrite Hleft in Hsame.
    apply (inj (String.app _)) in Hsame.
    destruct op, op'; cbn in Hsame; try discriminate;
      injection Hsame as Hright; by split.
Qed.

End KernelMore.

(** * Properties of the cross-check harness *)

Section FuzzFacts.
Import Evalengine Fuzz.

Variable FindStringSubmatch : string -> option (list string).
Variable knownErrors : list (string -> bool).
Context {Stmt AstExpr LocalExpr Remote : Type}.
Variable Parse : string -> go (Stmt * option string).
Variable selectExpr : Stmt -> go AstExpr.
Variable ConvertEx : AstExpr -> go (option LocalExpr * option string).
Variable Evaluate : option LocalExpr -> go (EvalResult * option string).
Variable ExecuteFetch : string -> Remote * option string.
Variable firstCell : Remote -> go string.
Variable valueString : EvalResult -> string.

Local Abbreviation errorsMatch := (Fuzz.errorsMatch FindStringSubmatch knownErrors).
Local Abbreviation diff := (Fuzz.diff FindStringSubmatch knownErrors).
Local Abbreviation safeEvaluate := (Fuzz.safeEvaluate Parse selectExpr ConvertEx Evaluate).
Local Abbreviation bothReturnSameResult :=
  (Fuzz.bothReturnSameResult Parse selectExpr ConvertEx Evaluate
     ExecuteFetch firstCell valueString).

Lemma append_empty (a b : string) : a +:+ b = "" -> a = "" /\ b = "".
Proof. destruct a; cbn; [done | discriminate]. Qed.

(** [diff] reports nothing in exactly three situations: both sides failed
    and [errorsMatch] accepts the pair of errors; only MySQL failed, with
    an error one of the known patterns matches; neither failed and the two
    values are the same text.  A local error against a MySQL success is
    always reported. *)
Theorem diff_is_empty_exactly_on_agreement (cr : comparisonResult) :
  diff cr = Return "" <->
  (exists le re, localErr cr = Some le /\ remoteErr cr = Some re /\
                 errorsMatch re le = Return true) \/
  (exists re, localErr cr = None /\ remoteErr cr = Some re /\
              existsb (fun ke => ke re) knownErrors = true) \/
  (localErr cr = None /\ remoteErr cr = None /\ localVal cr = remoteVal cr).
Proof.
  unfold Fuzz.diff.
  destruct (localErr cr) as [le |], (remoteErr cr) as [re |].
  - destruct (errorsMatch re le) as [[|] | m] eqn:Hm; split.
    + intros _. left. by exists le, re.
    + done.
    + cbn. intros [=].
    + intros [(le' & re' & [= <-] & [= <-] & H) | [(? & [=] & _) | ([=] & _)]].
      rewrite Hm in H. discriminate.
    + intros [=].
    + intros [(le' & re' & [= <-] & [= <-] & H) | [(? & [=] & _) | ([=] & _)]].
      rewrite Hm in H. discriminate.
  - split.
    + intros [= H]. apply append_empty in H as [_ H]. discriminate.
    + intros [(? & ? & _ & [=] & _) | [(? & [=] & _) | ([=] & _)]].
  - destruct (existsb (fun ke => ke re) knownErrors) eqn:Hk; split.
    + intros _. right; left. by exists re.
    + done.
    + intros [= H]. apply append_empty in H as [_ H]. discriminate.
    + intros [(? & ? & [=] & _) | [(re' & _ & [= <-] & H) | (_ & [=] & _)]].
      rewrite Hk in H. discriminate.
  - destruct (decide (localVal cr <> remoteVal cr)) as [Hne | Heq]; split.
    + cbn. intros [=].
    + intros [(? & ? & [=] & _) | [(? & _ & [=] & _) | (_ & _ & H)]]. done.
    + intros _. right; right. repeat split. by apply dec_stable.
    + done.
Qed.

(** The check of the local message against the known patterns is commented
    out in [errorsMatch]: once one of the known patterns matches the message
    extracted from the MySQL error, every local error is accepted. *)
Theorem known_remote_error_accepts_any_local_error
    (remote : string) (rem : list string) (remoteMessage : string) :
  FindStringSubmatch remote = Some rem ->
  rem !! 1%nat = Some remoteMessage ->
  existsb (fun re => re remoteMessage) knownErrors = true ->
  forall local, errorsMatch remote local = Return true.
Proof.
  intros Hrem Hmsg Hknown local. unfold Fuzz.errorsMatch.
  rewrite Hrem, Hmsg, Hknown. by destruct (decide _).
Qed.

(** Once the query has parsed into a SELECT, [safeEvaluate] returns whatever
    the converter and the evaluator do, panics included, and never panics
    itself.  An error of the converter comes back beside the zero result,
    not evaluated; a value and an error of the evaluator come back as they
    are, evaluated; a panic with message [m] comes back as the error
    ["PANIC: m"] beside the zero result, not evaluated if the converter
    panicked and evaluated if the evaluator did.  So the expression is
    reported as evaluated exactly when the converter returned without an
    error. *)
Theorem safeEvaluate_recovers_from_panics (query : string) (stmt : Stmt) (ast : AstExpr) :
  Parse query = Return (stmt, None) ->
  selectExpr stmt = Return ast ->
  (forall e err,
     ConvertEx ast = Return (e, Some err) ->
     safeEvaluate query = Return (EvalResult_zero, false, Some err)) /\
  (forall m,
     ConvertEx ast = Panics m ->
     safeEvaluate query = Return (EvalResult_zero, false, Some ("PANIC: " +:+ m))) /\
  (forall e v err,
     ConvertEx ast = Return (e, None) -> Evaluate e = Return (v, err) ->
     safeEvaluate query = Return (v, true, err)) /\
  (forall e m,
     ConvertEx ast = Return (e, None) -> Evaluate e = Panics m ->
     safeEvaluate query = Return (EvalResult_zero, true, Some ("PANIC: " +:+ m))) /\
  (exists v ev err,
     safeEvaluate query = Return (v, ev, err) /\
     (ev = true <-> exists e, ConvertEx ast = Return (e, None))).
Proof.
  intros Hparse Hsel. unfold Fuzz.safeEvaluate. rewrite Hparse, Hsel.
  repeat split.
  - by intros e err ->.
  - by intros m ->.
  - intros e v err ->. cbn. by intros ->.
  - intros e m ->. cbn. by intros ->.
  - destruct (ConvertEx ast) as [[e [cerr |]] | cm]; cbn.
    + eexists _, _, _. split; [reflexivity |].
      split; [done | by intros (e' & [=])].
    + destruct (Evaluate e) as [[v err] | em]; cbn;
        (eexists _, _, _; split; [reflexivity |]);
        (split; [by exists e | done]).
    + eexists _, _, _. split; [reflexivity |].
      split; [done | by intros (e' & [=])].
Qed.

(** A panic inside the local evaluator never passes for agreement: when
    MySQL evaluates the query without an error, the comparison is reported
    with a non-empty [diff]. *)
Theorem local_panic_is_reported (query : string) (stmt : Stmt) (ast : AstExpr)
    (e : option LocalExpr) (m : string) (remote : Remote) (cell : string) :
  Parse query = Return (stmt, None) ->
  selectExpr stmt = Return ast ->
  ConvertEx ast = Return (e, None) ->
  Evaluate e = Panics m ->
  ExecuteFetch query = (remote, None) ->
  firstCell remote = Return cell ->
  exists cr s,
    bothReturnSameResult query = Return cr /\
    evaluated cr = true /\
    diff cr = Return s /\ s <> "".
Proof.
  intros Hparse Hsel Hconv Heval Hfetch Hcell.
  unfold Fuzz.bothReturnSameResult, Fuzz.safeEvaluate.
  rewrite Hparse, Hsel, Hconv. cbn. rewrite Heval. cbn.
  rewrite Hfetch, Hcell.
  destruct (Contains _ _);
    (eexists _, _; split; [reflexivity |]; split; [reflexivity |];
     unfold Fuzz.diff; cbn [localErr remoteErr]; split; [reflexivity |];
     intros H; apply append_empty in H as [_ H]; discriminate).
Qed.

(** Two syntax errors always agree.  Both messages are replaced by fixed
    texts, and the fixed MySQL text is shaped so that the message the
    extraction pattern takes from it is the fixed local text. *)
Theorem syntax_errors_agree (query : string) (stmt : Stmt) (le : string)
    (remote : Remote) (re : string) (rem : list string) :
  Parse query = Return (stmt, Some le) ->
  Contains le "syntax error at position" = true ->
  ExecuteFetch query = (remote, Some re) ->
  Contains re "You have an error in your SQL syntax" = true ->
  FindStringSubmatch syntaxErr = Some rem ->
  rem !! 1%nat = Some localSyntaxErr ->
  exists cr,
    bothReturnSameResult query = Return cr /\
    evaluated cr = false /\
    diff cr = Return "".
Proof.
  intros Hparse Hle Hfetch Hre Hrem Hmsg.
  unfold Fuzz.bothReturnSameResult, Fuzz.safeEvaluate.
  rewrite Hparse, Hfetch, Hle, Hre.
  eexists. split; [reflexivity |]. split; [reflexivity |].
  unfold Fuzz.diff, Fuzz.errorsMatch. cbn [localErr remoteErr].
  rewrite Hrem, Hmsg. by rewrite decide_True.
Qed.

End FuzzFacts.

(** * Properties of the tablet manager client of the materializer tests *)

Section SplitFacts.
Import Wrangler.

Lemma Split_not_nil (sep : Ascii.ascii) (s : string) : Split sep s <> [].
Proof.
  induction s as [| c s IH]; cbn; [done |].
  destruct (decide (c = sep)); [done |].
  by destruct (Split sep s).
Qed.

Lemma Split_length (sep : Ascii.ascii) (s : string) :
  length (Split sep s) = S (Count s sep).
Proof.
  induction s as [| c s IH]; cbn [Split Count]; [reflexivity |].
  pose proof (Split_not_nil sep s) as Hne.
  destruct (Split sep s) as [| piece pieces]; [done |].
  cbn [length] in IH. destruct (decide (c = sep)); cbn [length]; lia.
Qed.

Lemma Join_cons_char (c : Ascii.ascii) (piece : string) (pieces : list string)
    (sep : string) :
  Join (String c piece :: pieces) sep = String c (Join (piece :: pieces) sep).
Proof. by destruct pieces. Qed.

(** [strings.Split] at [";"] and [strings.Join]: joining the pieces with
    the separator gives the string back, no piece contains the separator,
    and there is one piece more than there are separators; in particular
    the empty string splits into one empty piece. *)
Theorem Split_Join_round_trip (sep : Ascii.ascii) (s : string) :
  Join (Split sep s) (String sep EmptyString) = s /\
  Forall (fun piece => Count piece sep = 0%nat) (Split sep s) /\
  length (Split sep s) = S (Count s sep).
Proof.
  induction s as [| c s (IHjoin & IHfree & IHlen)]; cbn [Split Count].
  - split; [reflexivity |]. split; [by repeat constructor | reflexivity].
  - pose proof (Split_not_nil sep s) as Hne.
    destruct (Split sep s) as [| piece pieces] eqn:Hsplit; [done |].
    cbn [length] in IHlen.
    destruct (decide (c = sep)) as [-> | Hc]; (split; [| split]).
    + change (Join ("" :: piece :: pieces) (String sep ""))
        with (String sep (Join (piece :: pieces) (String sep ""))).
      by rewrite IHjoin.
    + by constructor.
    + cbn [length]. lia.
    + rewrite Join_cons_char. by rewrite IHjoin.
    + apply Forall_cons in IHfree as [Hpiece Hpieces].
      constructor; [| done]. cbn. by rewrite decide_False.
    + cbn [length]. lia.
Qed.

End SplitFacts.

Section ClientFacts.
Import Wrangler.

Context {Result QueryResult SchemaChangeResult : Type}.
Variable ResultToProto3 : Result -> QueryResult.
Variable MustCompile_MatchString : string -> string -> go bool.
Variable fmt_tablet : Tablet -> string.

Local Abbreviation client := (testMaterializerTMClient QueryResult).
Local Abbreviation exec := (VReplicationExec MustCompile_MatchString fmt_tablet).
Local Abbreviation expect := (expectVRQuery ResultToProto3).

(** The queries a tablet still expects; a tablet the map does not know
    expects none. *)
Local Abbreviation waiting := (fun (uid : Z) (tmc : client) => default [] (vrQueries tmc !! uid)).

Lemma Itoa_uid_inj (uid uid' : N) :
  Itoa (Z.of_N uid) = Itoa (Z.of_N uid') -> uid = uid'.
Proof. unfold Itoa. intros H%(inj pretty). by apply N2Z.inj. Qed.

Lemma schemaRequested_adds_one (uid : N) (tmc : client) :
  getSchemaRequestCount uid (schemaRequested uid tmc)
  = int_wrap (getSchemaRequestCount uid tmc + 1).
Proof.
  unfold getSchemaRequestCount, schemaRequested. cbn.
  destruct (getSchemaCounts tmc !! Itoa (Z.of_N uid)) as [n |];
    by rewrite lookup_insert_eq.
Qed.

(** Every way a call of [VReplicationExec] can end: without a change to the
    client, with an error beside a [nil] result or with a panic; or with
    the result of the first expected query, which is then removed. *)
Lemma VReplicationExec_cases (tablet : Tablet) (q : string) (tmc tmc' : client)
    (out : go (option QueryResult * option string)) :
  exec tablet q tmc = (out, tmc') ->
  (tmc' = tmc /\
   ((exists err, out = Return (None, Some err)) \/ (exists m, out = Panics m))) \/
  (exists alias qr rest,
     Alias tablet = Some alias /\
     waiting (Z.of_N (Uid alias)) tmc = qr :: rest /\
     out = Return (Some (result qr), None) /\
     tmc' = {| schema := schema tmc;
               vrQueries := <[Z.of_N (Uid alias) := rest]> (vrQueries tmc);
               getSchemaCounts := getSchemaCounts tmc |}).
Proof.
  unfold VReplicationExec.
  destruct (Alias tablet) as [alias |] eqn:Halias;
    [| intros [= <- <-]; left; eauto].
  destruct (default [] (vrQueries tmc !! Z.of_N (Uid alias))) as [| qr rest] eqn:Hq;
    [intros [= <- <-]; left; eauto |].
  assert (Hserved : forall (out0 : go (option QueryResult * option string))
                           (tmc0 : client),
    out0 = Return (Some (result qr), None) ->
    tmc0 = {| schema := schema tmc;
              vrQueries := <[Z.of_N (Uid alias) := rest]> (vrQueries tmc);
              getSchemaCounts := getSchemaCounts tmc |} ->
    exists alias0 qr0 rest0,
      Some alias = Some alias0 /\
      default [] (vrQueries tmc !! Z.of_N (Uid alias0)) = qr0 :: rest0 /\
      out0 = Return (Some (result qr0), None) /\
      tmc0 = {| schema := schema tmc;
                vrQueries := <[Z.of_N (Uid alias0) := rest0]> (vrQueries tmc);
                getSchemaCounts := getSchemaCounts tmc |}).
  { intros out0 tmc0 -> ->. by exists alias, qr, rest. }
  destruct (query qr) as [| c pattern]; [intros [= <- <-]; left; eauto |].
  destruct (decide (c = "/"%char)).
  - destruct (MustCompile_MatchString pattern q) as [[|] | m];
      intros [= <- <-]; [right; by apply Hserved | left; eauto | left; eauto].
  - destruct (bool_decide (q = String c pattern)); intros [= <- <-];
      [right; by apply Hserved | left; eauto].
Qed.

(** The schema request counter: a request for a tablet adds one to the
    count read back for that tablet, starting from zero for a tablet never
    seen, and leaves the counts of all other tablets as they were. *)
Theorem schemaRequested_counts_per_tablet (uid uid' : N) (tmc : client) :
  getSchemaRequestCount uid (schemaRequested uid tmc)
    = int_wrap (getSchemaRequestCount uid tmc + 1) /\
  (0 <= getSchemaRequestCount uid tmc < 2 ^ 63 - 1 ->
   getSchemaRequestCount uid (schemaRequested uid tmc)
     = getSchemaRequestCount uid tmc + 1) /\
  (uid' <> uid ->
   getSchemaRequestCount uid' (schemaRequested uid tmc)
     = getSchemaRequestCount uid' tmc).
Proof.
  split; [apply schemaRequested_adds_one | split].
  - intros Hrange. rewrite schemaRequested_adds_one. unfold int_wrap.
    rewrite Z.mod_small by lia. lia.
  - intros Hne. unfold getSchemaRequestCount, schemaRequested. cbn.
    assert (Hkey : Itoa (Z.of_N uid) <> Itoa (Z.of_N uid'))
      by (intros Heq%Itoa_uid_inj; congruence).
    destruct (getSchemaCounts tmc !! Itoa (Z.of_N uid)) as [n |];
      by rewrite lookup_insert_ne.
Qed.

(** [VReplicationExec] changes the client only when it answers: whenever it
    returns an error (nothing expected, or something else expected) the
    result is [nil] and the client is as before, and likewise when it
    panics. *)
Theorem VReplicationExec_failure_keeps_the_client
    (tablet : Tablet) (q : string) (tmc : client) :
  (forall r err tmc', exec tablet q tmc = (Return (r, Some err), tmc') ->
     r = None /\ tmc' = tmc) /\
  (forall m tmc', exec tablet q tmc = (Panics m, tmc') -> tmc' = tmc).
Proof.
  split.
  - intros r err tmc' Hexec.
    destruct (VReplicationExec_cases _ _ _ _ _ Hexec)
      as [[-> [[err' [= -> _]] | [m [=]]]] | (alias & qr & rest & _ & _ & [=] & _)].
    done.
  - intros m tmc' Hexec.
    destruct (VReplicationExec_cases _ _ _ _ _ Hexec)
      as [[-> _] | (alias & qr & rest & _ & _ & [=] & _)].
    done.
Qed.

(** When [VReplicationExec] answers, the answer is the result of the first
    query the tablet expects, that query is removed, and nothing else in
    the client changes. *)
Theorem VReplicationExec_serves_the_first_expectation
    (tablet : Tablet) (q : string) (tmc tmc' : client) (r : option QueryResult) :
  exec tablet q tmc = (Return (r, None), tmc') ->
  exists alias qr rest,
    Alias tablet = Some alias /\
    waiting (Z.of_N (Uid alias)) tmc = qr :: rest /\
    r = Some (result qr) /\
    waiting (Z.of_N (Uid alias)) tmc' = rest /\
    (forall uid, uid <> Z.of_N (Uid alias) ->
       vrQueries tmc' !! uid = vrQueries tmc !! uid) /\
    schema tmc' = schema tmc /\
    getSchemaCounts tmc' = getSchemaCounts tmc.
Proof.
  intros Hexec.
  destruct (VReplicationExec_cases _ _ _ _ _ Hexec)
    as [[_ [[err [=]] | [m [=]]]] | (alias & qr & rest & Ha & Hq & [= ->] & ->)].
  exists alias, qr, rest. cbn. rewrite lookup_insert_eq.
  repeat split; try done. intros uid Hne. by rewrite lookup_insert_ne.
Qed.

(** First in, first out: a query posted with [expectVRQuery] goes to the
    back of the tablet's queue, and [VReplicationExec] answers from the
    front.  On an empty queue the posted query is answered at once and the
    queue is empty again; behind waiting queries it keeps its place. *)
Theorem expectations_are_served_in_order
    (tablet : Tablet) (alias : TabletAlias) (q : string) (res : Result)
    (c : Ascii.ascii) (tail : string) (tmc : client) :
  Alias tablet = Some alias ->
  q = String c tail -> c <> "/"%char ->
  let uid := Z.of_N (Uid alias) in
  let posted := {| query := q; result := ResultToProto3 res |} in
  waiting uid (expect uid q res tmc) = (waiting uid tmc ++ [posted])%list /\
  (waiting uid tmc = [] ->
   exists tmc',
     exec tablet q (expect uid q res tmc)
       = (Return (Some (ResultToProto3 res), None), tmc') /\
     waiting uid tmc' = []) /\
  (forall qr rest c' tail',
     waiting uid tmc = qr :: rest ->
     query qr = String c' tail' -> c' <> "/"%char ->
     exists tmc',
       exec tablet (query qr) (expect uid q res tmc)
         = (Return (Some (result qr), None), tmc') /\
       waiting uid tmc' = (rest ++ [posted])%list).
Proof.
  intros Halias -> Hc uid posted.
  assert (Hposted : waiting uid (expect uid (String c tail) res tmc)
                    = (waiting uid tmc ++ [posted])%list).
  { unfold expectVRQuery. cbn. by rewrite lookup_insert_eq. }
  split; [exact Hposted | split].
  - intros Hempty. unfold VReplicationExec. rewrite Halias.
    fold uid. rewrite Hposted, Hempty. cbn.
    rewrite decide_False by done. rewrite bool_decide_eq_true_2 by done.
    eexists. split; [reflexivity |]. cbn. by rewrite lookup_insert_eq.
  - intros qr rest c' tail' Hwait Hq Hc'. unfold VReplicationExec.
    rewrite Halias. fold uid. rewrite Hposted, Hwait. cbn. rewrite Hq.
    rewrite decide_False by done. rewrite bool_decide_eq_true_2 by done.
    eexists. split; [reflexivity |]. cbn. by rewrite lookup_insert_eq.
Qed.

End ClientFacts.

Section ClientRuns.
Import Wrangler.

Context {Result QueryResult SchemaChangeResult : Type}.
Variable ResultToProto3 : Result -> QueryResult.
Variable MustCompile_MatchString : string -> string -> go bool.
Variable fmt_tablet : Tablet -> string.

Local Abbreviation client := (testMaterializerTMClient QueryResult).
Local Abbreviation exec := (VReplicationExec MustCompile_MatchString fmt_tablet).
Local Abbreviation apply :=
  (@ApplySchema QueryResult SchemaChangeResult MustCompile_MatchString fmt_tablet).
Local Abbreviation applyAll :=
  (@applyStatements QueryResult SchemaChangeResult MustCompile_MatchString fmt_tablet).
Local Abbreviation waiting := (fun (uid : Z) (tmc : client) => default [] (vrQueries tmc !! uid)).

(** The loop of [ApplySchema] takes one expectation of the tablet for each
    statement it gets through. *)
Lemma applyStatements_progress (tablet : Tablet) (alias : TabletAlias)
    (stmts : list string) :
  Alias tablet = Some alias ->
  forall (tmc tmc' : client) (r : option SchemaChangeResult) (err : option string),
    applyAll tablet stmts tmc = (Return (r, err), tmc') ->
    r = None /\
    (forall uid, uid <> Z.of_N (Uid alias) ->
       vrQueries tmc' !! uid = vrQueries tmc !! uid) /\
    exists k : nat,
      (k <= length stmts)%nat /\
      (k <= length (waiting (Z.of_N (Uid alias)) tmc))%nat /\
      waiting (Z.of_N (Uid alias)) tmc' = drop k (waiting (Z.of_N (Uid alias)) tmc) /\
      (err = None -> k = length stmts) /\
      (err <> None -> (k < length stmts)%nat).
Proof.
  intros Halias. induction stmts as [| stmt stmts IH]; intros tmc tmc' r err.
  - cbn. intros [= <- <- <-]. split; [done |]. split; [done |].
    exists 0%nat. cbn. split; [lia |]. split; [lia |]. split; [done |].
    split; [done | by intros []].
  - cbn [applyStatements]. unfold ExecuteFetchAsDba. cbn [Query].
    destruct (exec tablet stmt tmc) as [[[r1 [e1 |]] | m] tmc1] eqn:Hexec.
    + intros [= <- <- <-].
      destruct (VReplicationExec_cases MustCompile_MatchString fmt_tablet
                  _ _ _ _ _ Hexec)
        as [[-> _] | (alias' & qr & rest & _ & _ & [=] & _)].
      split; [done |]. split; [done |].
      exists 0%nat. cbn. split; [lia |]. split; [lia |]. split; [done |].
      split; [done | intros _; lia].
    + intros Hrest.
      destruct (VReplicationExec_cases MustCompile_MatchString fmt_tablet
                  _ _ _ _ _ Hexec)
        as [[_ [[err' [=]] | [m [=]]]] | (alias' & qr & rest & Ha & Hwait & _ & Htmc1)].
      rewrite Halias in Ha. injection Ha as <-.
      assert (Hwait1 : waiting (Z.of_N (Uid alias)) tmc1 = rest)
        by (rewrite Htmc1; cbn; by rewrite lookup_insert_eq).
      assert (Hother : forall uid, uid <> Z.of_N (Uid alias) ->
                vrQueries tmc1 !! uid = vrQueries tmc !! uid)
        by (intros uid Hne; rewrite Htmc1; cbn; by rewrite lookup_insert_ne).
      clear Htmc1.
      destruct (IH _ _ _ _ Hrest) as (-> & Hother' & k & Hk & Hq & Hdrop & Hok & Hbad).
      split; [done |]. split.
      { intros uid Hne. rewrite Hother' by done. by apply Hother. }
      exists (S k). rewrite Hwait. rewrite Hwait1 in Hq, Hdrop. cbn.
      split; [lia |]. split; [lia |]. split; [done |]. split.
      * intros He. by rewrite Hok.
      * intros He. apply Hbad in He. lia.
    + intros [=].
Qed.

(** [ApplySchema] runs the statements between the semicolons one after the
    other and stops at the first that fails.  When it succeeds it has taken
    exactly one expectation of the tablet per statement, that is one more
    than there are semicolons; when it returns an error it has taken fewer,
    and the expectations behind the failed statement are still waiting.
    Other tablets are not touched and the result is always [nil]. *)
Theorem ApplySchema_takes_one_expectation_per_statement
    (tablet : Tablet) (alias : TabletAlias) (change : SchemaChange)
    (tmc tmc' : client) (r : option SchemaChangeResult) (err : option string) :
  Alias tablet = Some alias ->
  apply tablet change tmc = (Return (r, err), tmc') ->
  let uid := Z.of_N (Uid alias) in
  let n := S (Count (SQL change) ";") in
  r = None /\
  (forall uid', uid' <> uid -> vrQueries tmc' !! uid' = vrQueries tmc !! uid') /\
  exists k : nat,
    (k <= length (waiting uid tmc))%nat /\
    waiting uid tmc' = drop k (waiting uid tmc) /\
    (err = None -> k = n) /\
    (err <> None -> (k < n)%nat).
Proof.
  intros Halias Happly uid n. unfold ApplySchema in Happly.
  destruct (applyStatements_progress _ _ _ Halias _ _ _ _ Happly)
    as (Hr & Hother & k & Hk & Hq & Hdrop & Hok & Hbad).
  rewrite Split_length in Hk, Hok, Hbad.
  split; [done |]. split; [done |]. exists k. by repeat split.
Qed.

Lemma omap_nil_iff {A B} (f : A -> option B) (l : list A) :
  omap f l = [] <-> Forall (fun x => f x = None) l.
Proof.
  rewrite Forall_forall. split.
  - intros Hnil x Hx. destruct (f x) as [y |] eqn:Hfx; [| done].
    assert (Hy : y ∈ omap f l) by (apply list_elem_of_omap; eauto).
    rewrite Hnil in Hy. by apply elem_of_nil in Hy.
  - intros Hnone. destruct (omap f l) as [| y k] eqn:Hk; [done |].
    assert (Hy : y ∈ omap f l) by (rewrite Hk; left).
    apply list_elem_of_omap in Hy as (x & Hx & Hfx).
    rewrite (Hnone x Hx) in Hfx. discriminate.
Qed.

(** [verifyQueries] complains about nothing exactly when no tablet has a
    query left waiting, in whatever order it visits the tablets. *)
Theorem verifyQueries_is_silent_iff_nothing_waits (tmc : client)
    (visit : list (Z * list (queryResult QueryResult))) :
  visit ≡ₚ map_to_list (vrQueries tmc) ->
  verifyQueries visit = [] <-> forall uid, waiting uid tmc = [].
Proof.
  intros Hvisit. unfold verifyQueries. rewrite omap_nil_iff, Forall_forall. split.
  - intros Hall uid. destruct (vrQueries tmc !! uid) as [qrs |] eqn:Hq; [| done].
    apply elem_of_map_to_list in Hq. rewrite <- Hvisit in Hq. apply Hall in Hq.
    cbn. by destruct qrs.
  - intros Hnone [uid qrs] Hin. rewrite Hvisit in Hin.
    apply elem_of_map_to_list in Hin.
    specialize (Hnone uid). rewrite Hin in Hnone. cbn in Hnone. by subst.
Qed.

End ClientRuns.

Section SchemaFacts.
Import Wrangler.

Context {QueryResult : Type}.

Local Abbreviation client := (testMaterializerTMClient QueryResult).

(** The definitions stored for table [table] of keyspace [ks]; none for a
    table the client does not know. *)
Local Abbreviation stored :=
  (fun (tmc : client) (ks table : string) =>
     from_option TableDefinitions [] (mjoin (schema tmc !! (ks +:+ "." +:+ table)))).

(** The definitions of a map entry if its key belongs to keyspace [ks]. *)
Local Abbreviation of_keyspace :=
  (fun (ks : string) (entry : string * option SchemaDefinition) =>
     if String.prefix (ks +:+ ".") entry.1
     then from_option TableDefinitions [] entry.2 else []).

Lemma getTables_named (visit : list (string * option SchemaDefinition))
    (tmc : client) (ks : string) (tables : list string) :
  "/.*/" ∉ tables ->
  forall acc,
    getTables visit tmc ks tables acc
    = Return (acc ++ (tables ≫= stored tmc ks))%list.
Proof.
  induction tables as [| table tables IH]; intros Hno acc; cbn [getTables].
  - by rewrite app_nil_r.
  - apply not_elem_of_cons in Hno as [Hne Hno].
    rewrite decide_False by done. rewrite bind_cons, app_assoc.
    destruct (mjoin (schema tmc !! (ks +:+ "." +:+ table))) as [d |]; cbn.
    + by apply IH.
    + rewrite app_nil_r. by apply IH.
Qed.

Lemma getTables_wildcard (visit : list (string * option SchemaDefinition))
    (tmc : client) (ks : string) (pre post : list string) :
  "/.*/" ∉ pre ->
  forall acc,
    getTables visit tmc ks (pre ++ "/.*/" :: post) acc
    = allTables ks visit (acc ++ (pre ≫= stored tmc ks))%list.
Proof.
  induction pre as [| table pre IH]; intros Hno acc; cbn [getTables app].
  - rewrite decide_True by done. by rewrite app_nil_r.
  - apply not_elem_of_cons in Hno as [Hne Hno].
    rewrite decide_False by done. rewrite bind_cons, app_assoc.
    destruct (mjoin (schema tmc !! (ks +:+ "." +:+ table))) as [d |]; cbn.
    + by apply IH.
    + rewrite app_nil_r. by apply IH.
Qed.

Lemma allTables_all (ks : string) (entries : list (string * option SchemaDefinition)) :
  Forall (fun entry => entry.2 <> None) entries ->
  forall acc,
    allTables ks entries acc = Return (acc ++ (entries ≫= of_keyspace ks))%list.
Proof.
  induction 1 as [| [key d] entries Hd _ IH]; intros acc; cbn [allTables].
  - by rewrite app_nil_r.
  - rewrite bind_cons, app_assoc. cbn in Hd |- *.
    destruct (String.prefix (ks +:+ ".") key).
    + destruct d as [d |]; [| done]. by apply IH.
    + rewrite app_nil_r. by apply IH.
Qed.

(** [GetSchema] counts the request before it looks anything up: whatever
    tables are asked for, and even when the lookup panics, the request
    count of the tablet has gone up by one afterwards, while the stored
    schemas and the expected queries are as before.  It never returns an
    error. *)
Theorem GetSchema_counts_the_request
    (visit : list (string * option SchemaDefinition))
    (tablet : Tablet) (alias : TabletAlias)
    (request : GetSchemaRequest) (tmc : client) :
  Alias tablet = Some alias ->
  let after := (GetSchema visit tablet request tmc).2 in
  getSchemaRequestCount (Uid alias) after
    = int_wrap (getSchemaRequestCount (Uid alias) tmc + 1) /\
  schema after = schema tmc /\
  vrQueries after = vrQueries tmc /\
  (forall sd err,
     (GetSchema visit tablet request tmc).1 = Return (sd, err) -> err = None).
Proof.
  intros Halias. unfold GetSchema. rewrite Halias.
  pose proof (schemaRequested_adds_one (Uid alias) tmc) as Hcount.
  destruct (getTables _ _ _ _ _) as [defs | m]; cbn;
    (split; [exact Hcount |]); (split; [done |]); (split; [done |]);
    by intros sd err [=].
Qed.

(** Asked for tables by name, [GetSchema] answers with the definitions of
    the tables it knows, in the order asked; a table it does not know is
    passed over without an error.  The order in which the map would be
    visited plays no part. *)
Theorem GetSchema_lists_the_known_tables
    (visit : list (string * option SchemaDefinition))
    (tablet : Tablet) (alias : TabletAlias)
    (request : GetSchemaRequest) (tmc : client) :
  Alias tablet = Some alias ->
  "/.*/" ∉ Tables request ->
  (GetSchema visit tablet request tmc).1
  = Return ({| TableDefinitions :=
                 Tables request ≫= stored tmc (Keyspace tablet) |}, None).
Proof.
  intros Halias Hnamed. unfold GetSchema. rewrite Halias.
  by rewrite (getTables_named _ _ _ _ Hnamed).
Qed.

Lemma allTables_nil_entry (ks key : string)
    (entries : list (string * option SchemaDefinition)) :
  (key, None) ∈ entries ->
  String.prefix (ks +:+ ".") key = true ->
  forall acc, allTables ks entries acc = Panics nil_dereference.
Proof.
  intros Hin Hprefix.
  induction entries as [| [key' d] entries IH]; intros acc;
    [by apply elem_of_nil in Hin |].
  cbn [allTables]. apply elem_of_cons in Hin as [[= <- <-] | Hin].
  - by rewrite Hprefix.
  - destruct (String.prefix (ks +:+ ".") key'); [destruct d |]; auto.
Qed.

(** The table name ["/.*/"] ends the request: the names after it are not
    looked at, while the definitions gathered for the names before it are
    kept.  In whatever order the map is visited: if no stored schema is a
    [nil] pointer the answer is those definitions followed by the
    definitions of every entry of the tablet's keyspace, in the order of
    the visit; if an entry of the tablet's keyspace is a [nil] pointer the
    call panics. *)
Theorem GetSchema_wildcard_ends_the_request
    (visit : list (string * option SchemaDefinition))
    (tablet : Tablet) (alias : TabletAlias)
    (pre post : list string) (tmc : client) :
  Alias tablet = Some alias ->
  "/.*/" ∉ pre ->
  visit ≡ₚ map_to_list (schema tmc) ->
  GetSchema visit tablet {| Tables := pre ++ "/.*/" :: post |} tmc
    = GetSchema visit tablet {| Tables := pre ++ ["/.*/"] |} tmc /\
  (map_Forall (fun _ d => d <> None) (schema tmc) ->
   (GetSchema visit tablet {| Tables := pre ++ "/.*/" :: post |} tmc).1
   = Return ({| TableDefinitions :=
                  (pre ≫= stored tmc (Keyspace tablet))
                  ++ (visit ≫= of_keyspace (Keyspace tablet)) |},
             None)) /\
  (forall key,
     schema tmc !! key = Some None ->
     String.prefix (Keyspace tablet +:+ ".") key = true ->
     (GetSchema visit tablet {| Tables := pre ++ "/.*/" :: post |} tmc).1
     = Panics nil_dereference).
Proof.
  intros Halias Hpre Hvisit. unfold GetSchema. rewrite Halias. cbn [Tables].
  rewrite !(getTables_wildcard _ _ _ _ _ Hpre).
  split; [reflexivity | split].
  - intros Hnonnil. cbn [schemaRequested schema].
    rewrite allTables_all; [reflexivity |].
    apply Forall_forall. intros [key d] Hin. rewrite Hvisit in Hin.
    apply elem_of_map_to_list in Hin. exact (Hnonnil key d Hin).
  - intros key Hkey Hprefix.
    rewrite (allTables_nil_entry _ key); [reflexivity | | exact Hprefix].
    rewrite Hvisit. by apply elem_of_map_to_list.
Qed.

End SchemaFacts.

Section CountFacts.
Import VDiffTest.

Lemma remove_dups_length (l : list string) :
  (length (remove_dups l) <= length l)%nat /\
  (length (remove_dups l) = length l <-> NoDup l).
Proof.
  induction l as [| x l (IHle & IHeq)]; cbn.
  - split; [done |]. split; [constructor | done].
  - destruct (decide_rel elem_of x l) as [Hin | Hout]; cbn.
    + split; [lia |]. split; [lia |].
      intros [Hx _]%NoDup_cons. done.
    + split; [lia |]. split.
      * intros Hlen. apply NoDup_cons. split; [done |]. apply IHeq. lia.
      * intros [_ Hnd]%NoDup_cons. apply IHeq in Hnd. lia.
Qed.

(** [uuidCount] counts every UUID once, however many shards report it: it
    depends only on which UUIDs occur, never exceeds the number of records,
    and equals it exactly when no UUID is repeated. *)
Theorem uuidCount_counts_each_uuid_once (uuids : list string) :
  uuidCount uuids = Z.of_nat (length (remove_dups uuids)) /\
  uuidCount uuids <= Z.of_nat (length uuids) /\
  (uuidCount uuids = Z.of_nat (length uuids) <-> NoDup uuids) /\
  (forall others, (forall u, u ∈ uuids <-> u ∈ others) ->
     uuidCount others = uuidCount uuids).
Proof.
  assert (Hsize : forall l : list string,
            size (list_to_set l : gset string) = length (remove_dups l)).
  { intros l. rewrite <- (size_list_to_set (C := gset string) (remove_dups l))
      by apply NoDup_remove_dups.
    f_equal. apply set_eq. intros u.
    by rewrite !elem_of_list_to_set, elem_of_remove_dups. }
  unfold uuidCount. split; [by rewrite Hsize | split; [| split]].
  - rewrite Hsize. destruct (remove_dups_length uuids) as [Hle _]. lia.
  - rewrite Hsize. destruct (remove_dups_length uuids) as [_ Heq]. split.
    + intros Hlen%Nat2Z.inj. by apply Heq.
    + intros Hnd. f_equal. by apply Heq.
  - intros others Hsame. do 2 f_equal. apply set_eq. intros u.
    rewrite !elem_of_list_to_set. symmetry. apply Hsame.
Qed.

End CountFacts.

(** * The further properties on concrete inputs *)

Section KernelMoreRuns.
Import Evalengine Samples Standins.

Local Abbreviation run := (@ComparisonExpr_Evaluate trace unit compareIval keepNumeric).
Local Abbreviation expr := (@mkComparisonExpr trace unit).

(** [1 = 1] evaluates to Int32 1. *)
Lemma evaluate_returns_true_false_or_null_witness :
  run (expr (Some EqualOp) (literal "l" (int64 1)) (literal "r" (int64 1))) tt []
    = (Return (resultTrue, None), ["l"; "r"]) /\
  (resultTrue = resultTrue \/ resultTrue = resultFalse \/ resultTrue = resultNull).
Proof.
  split; [reflexivity |].
  apply (evaluate_returns_true_false_or_null compareIval keepNumeric
           (expr (Some EqualOp) (literal "l" (int64 1)) (literal "r" (int64 1)))
           tt [] resultTrue ["l"; "r"]).
  reflexivity.
Defined.

(** 1 against 2: only [<] of the three holds. *)
Lemma order_predicates_are_consistent_witness :
  exists lt eq gt : bool,
    Op_IsTrue compareIval keepNumeric LessThanOp (int64 1) (int64 2) = Return (lt, None) /\
    Op_IsTrue compareIval keepNumeric EqualOp (int64 1) (int64 2) = Return (eq, None) /\
    Op_IsTrue compareIval keepNumeric GreaterThanOp (int64 1) (int64 2) = Return (gt, None) /\
    Op_IsTrue compareIval keepNumeric NotEqualOp (int64 1) (int64 2) = Return (negb eq, None) /\
    Op_IsTrue compareIval keepNumeric LessEqualOp (int64 1) (int64 2) = Return (negb gt, None) /\
    Op_IsTrue compareIval keepNumeric GreaterEqualOp (int64 1) (int64 2) = Return (negb lt, None) /\
    ((lt, eq, gt) = (true, false, false) \/
     (lt, eq, gt) = (false, true, false) \/
     (lt, eq, gt) = (false, false, true)).
Proof.
  apply (order_predicates_are_consistent compareIval keepNumeric
           (int64 1) (int64 2) (-1)).
  reflexivity.
Defined.

Lemma evaluate_agrees_with_isTrue_witness :
  Op_Evaluate compareIval keepNumeric LessThanOp (int64 1) (int64 2)
    = Return (resultTrue, None)
  <-> Op_IsTrue compareIval keepNumeric LessThanOp (int64 1) (int64 2)
    = Return (true, None).
Proof.
  apply (evaluate_agrees_with_isTrue compareIval keepNumeric LessThanOp
           (int64 1) (int64 2)).
  right; right; left.
Defined.

(** With a [compareNumeric] that fails, [1 = 2] is Int32 0 with the error. *)
Lemma comparison_error_comes_with_false_witness :
  Op_IsTrue compareFails keepNumeric EqualOp (int64 1) (int64 2)
    = Return (false, Some boom) /\
  Op_Evaluate compareFails keepNumeric EqualOp (int64 1) (int64 2)
    = Return (resultFalse, Some boom) /\
  @ComparisonExpr_Evaluate trace unit compareFails keepNumeric
    (expr (Some EqualOp) (literal "l" (int64 1)) (literal "r" (int64 2))) tt []
    = (Return (resultFalse, Some boom), ["l"; "r"]).
Proof.
  apply (comparison_error_comes_with_false compareFails keepNumeric
           (expr (Some EqualOp) (literal "l" (int64 1)) (literal "r" (int64 2)))
           EqualOp tt [] (int64 1) ["l"] (int64 2) ["l"; "r"] 0 boom);
    try reflexivity.
  left.
Defined.

(** ['a'] against ['b'] panics in either order. *)
Lemma comparison_panics_symmetrically_witness :
  executeComparison compareIval keepNumeric (text "a") (text "b")
    = Panics "not implemented yet"
  <-> executeComparison compareIval keepNumeric (text "b") (text "a")
    = Panics "not implemented yet".
Proof.
  apply (comparison_panics_symmetrically compareIval keepNumeric
           (text "a") (text "b") "not implemented yet").
  intros a b. eexists. reflexivity.
Defined.

(** [a <= b] printed twice, once with operands that evaluate and once
    with operands that do not. *)
Lemma comparison_text_names_the_operator_witness :
  Op (expr (Some LessEqualOp) (literal "a" (int64 1)) (literal "b" (int64 2)))
  = Op (expr (Some LessEqualOp) (failing "a" boom) (crashing "b")).
Proof.
  apply (proj2 (comparison_text_names_the_operator
                  (expr (Some LessEqualOp) (literal "a" (int64 1)) (literal "b" (int64 2)))
                  (expr (Some LessEqualOp) (failing "a" boom) (crashing "b")))
           "a <= b" eq_refl eq_refl eq_refl).
Defined.

End KernelMoreRuns.

Section FuzzRuns.
Import Evalengine Samples Standins Fuzz.

Local Abbreviation outOfRange :=
  "BIGINT value is out of range in '(1 + 2)' (errno 1690) (sqlstate 22003) during query: x".

Lemma known_remote_error_accepts_any_local_error_witness :
  errorsMatch submatch known outOfRange "PANIC: implement me" = Return true.
Proof.
  apply (known_remote_error_accepts_any_local_error submatch known outOfRange
           [outOfRange; "BIGINT value is out of range in '(1 + 2)'"; ""; ""; ""]
           "BIGINT value is out of range in '(1 + 2)'");
    reflexivity.
Defined.

(** [1 = 1] comes back as the evaluator returns it; the panic of
    [NULL <=> NULL] comes back as an error; an expression the converter
    refuses is not evaluated. *)
Lemma safeEvaluate_recovers_from_panics_witness :
  safeEvaluate parse Return convertEqual evaluate "SELECT 1 = 1"
    = Return (resultTrue, true, None) /\
  safeEvaluate parse Return convert evaluate "SELECT NULL <=> NULL"
    = Return (EvalResult_zero, true, Some "PANIC: implement me") /\
  safeEvaluate parse Return convertRefuses evaluate "SELECT 1 = 1"
    = Return (EvalResult_zero, false, Some "unsupported").
Proof.
  split; [| split].
  - destruct (safeEvaluate_recovers_from_panics parse Return convertEqual evaluate
                "SELECT 1 = 1" "SELECT 1 = 1" "SELECT 1 = 1" eq_refl eq_refl)
      as (_ & _ & Hvalue & _).
    by eapply Hvalue.
  - destruct (safeEvaluate_recovers_from_panics parse Return convert evaluate
                "SELECT NULL <=> NULL" "SELECT NULL <=> NULL" "SELECT NULL <=> NULL"
                eq_refl eq_refl)
      as (_ & _ & _ & Hpanic & _).
    by eapply Hpanic.
  - destruct (safeEvaluate_recovers_from_panics parse Return convertRefuses evaluate
                "SELECT 1 = 1" "SELECT 1 = 1" "SELECT 1 = 1" eq_refl eq_refl)
      as (Hrefused & _).
    by eapply Hrefused.
Defined.

(** [NULL <=> NULL] panics locally while MySQL answers 1: reported. *)
Lemma local_panic_is_reported_witness :
  exists cr s,
    bothReturnSameResult parse Return convert evaluate
      fetch Return showValue "SELECT NULL <=> NULL" = Return cr /\
    evaluated cr = true /\
    diff submatch known cr = Return s /\ s <> "".
Proof.
  apply (local_panic_is_reported submatch known parse Return convert evaluate
           fetch Return showValue
           "SELECT NULL <=> NULL" "SELECT NULL <=> NULL" "SELECT NULL <=> NULL"
           (Some (mkComparisonExpr (Some NullSafeEqualOp)
                    (literal "l" resultNull) (literal "r" resultNull)))
           "implement me" "1" "1");
    reflexivity.
Defined.

Lemma syntax_errors_agree_witness :
  exists cr,
    bothReturnSameResult parse Return convert evaluate
      fetch Return showValue "SELEC 1" = Return cr /\
    evaluated cr = false /\
    diff submatch known cr = Return "".
Proof.
  apply (syntax_errors_agree submatch known parse Return convert evaluate
           fetch Return showValue
           "SELEC 1" "SELEC 1" "syntax error at position 1" ""
           "You have an error in your SQL syntax; check the manual (errno 1064) (sqlstate 42000) during query: x"
           [syntaxErr; localSyntaxErr; ""; ""; ""]);
    reflexivity.
Defined.

End FuzzRuns.

Section ClientWitnesses.
Import Wrangler Standins.

Local Abbreviation exec := (VReplicationExec occurs tabletName).
Local Abbreviation queue := (fun (tmc : testMaterializerTMClient string) =>
                               default [] (vrQueries tmc !! 200)).

Lemma schemaRequested_counts_per_tablet_witness :
  getSchemaRequestCount 200 (schemaRequested 200 emptyClient) = 1 /\
  getSchemaRequestCount 100 (schemaRequested 200 emptyClient) = 0.
Proof.
  destruct (schemaRequested_counts_per_tablet 200 100 emptyClient)
    as (_ & Hup & Hframe).
  split.
  - rewrite Hup; [reflexivity | vm_compute; split; discriminate || reflexivity].
  - rewrite Hframe; [reflexivity | discriminate].
Defined.

(** A query that is not the expected one is refused and nothing is taken. *)
Lemma VReplicationExec_failure_keeps_the_client_witness :
  (exec tablet200 "drop table t" expecting).2 = expecting.
Proof.
  destruct (exec tablet200 "drop table t" expecting) as [out tmc'] eqn:Hexec.
  destruct (VReplicationExec_failure_keeps_the_client occurs tabletName
              tablet200 "drop table t" expecting) as [Hkeep _].
  assert (Hout : exists err, out = Return (None, Some err)).
  { vm_compute in Hexec. injection Hexec as <- _. eexists. reflexivity. }
  destruct Hout as [err ->].
  exact (proj2 (Hkeep None err tmc' Hexec)).
Defined.

Lemma VReplicationExec_serves_the_first_expectation_witness :
  exists alias qr rest,
    Alias tablet200 = Some alias /\
    default [] (vrQueries expecting !! Z.of_N (Uid alias)) = qr :: rest /\
    Some "first" = Some (result qr) /\
    default [] (vrQueries (exec tablet200 "create table t (id int)" expecting).2
                  !! Z.of_N (Uid alias)) = rest /\
    (forall uid, uid <> Z.of_N (Uid alias) ->
       vrQueries (exec tablet200 "create table t (id int)" expecting).2 !! uid
       = vrQueries expecting !! uid) /\
    schema (exec tablet200 "create table t (id int)" expecting).2 = schema expecting /\
    getSchemaCounts (exec tablet200 "create table t (id int)" expecting).2
      = getSchemaCounts expecting.
Proof.
  apply (VReplicationExec_serves_the_first_expectation occurs tabletName
           tablet200 "create table t (id int)" expecting).
  vm_compute. reflexivity.
Defined.

Lemma expectations_are_served_in_order_witness :
  queue (expectVRQuery id 200 "drop table t" "third" expecting)
    = (queue expecting ++ [{| query := "drop table t"; result := "third" |}])%list /\
  exists tmc',
    exec tablet200 "create table t (id int)"
      (expectVRQuery id 200 "drop table t" "third" expecting)
      = (Return (Some "first", None), tmc') /\
    queue tmc'
      = [{| query := "insert into t values (1)"; result := "second" |};
         {| query := "drop table t"; result := "third" |}].
Proof.
  destruct (expectations_are_served_in_order id occurs tabletName
              tablet200 {| Cell := "cell"; Uid := 200 |} "drop table t" "third"
              "d"%char "rop table t" expecting eq_refl eq_refl)
    as (Hposted & _ & Hbehind); [discriminate |].
  split; [exact Hposted |].
  apply (Hbehind {| query := "create table t (id int)"; result := "first" |}
           [{| query := "insert into t values (1)"; result := "second" |}]
           "c"%char "reate table t (id int)");
    [reflexivity | reflexivity | discriminate].
Defined.

(** Two statements, two expectations: both are taken. *)
Lemma ApplySchema_takes_one_expectation_per_statement_witness :
  exists tmc',
    @ApplySchema string unit occurs tabletName tablet200
      {| SQL := "create table t (id int);insert into t values (1)" |} expecting
      = (Return (None, None), tmc') /\
    exists k : nat,
      (k <= length (queue expecting))%nat /\
      queue tmc' = drop k (queue expecting) /\
      k = 2%nat.
Proof.
  destruct (@ApplySchema string unit occurs tabletName tablet200
              {| SQL := "create table t (id int);insert into t values (1)" |}
              expecting) as [out tmc'] eqn:Happly.
  assert (Hout : out = Return (None, None)).
  { vm_compute in Happly. by injection Happly as <- _. }
  subst out. exists tmc'. split; [reflexivity |].
  destruct (ApplySchema_takes_one_expectation_per_statement occurs tabletName
              tablet200 {| Cell := "cell"; Uid := 200 |} _ _ _ _ _ eq_refl Happly)
    as (_ & _ & k & Hk & Hdrop & Hok & _).
  exists k. split; [exact Hk |]. split; [exact Hdrop |]. by apply Hok.
Defined.

Lemma GetSchema_counts_the_request_witness :
  getSchemaRequestCount 200
    (GetSchema [] tablet200 {| Tables := ["t1"; "nope"] |} withSchema).2 = 1 /\
  schema (GetSchema [] tablet200 {| Tables := ["t1"; "nope"] |} withSchema).2
    = schema withSchema.
Proof.
  destruct (GetSchema_counts_the_request [] tablet200 {| Cell := "cell"; Uid := 200 |}
              {| Tables := ["t1"; "nope"] |} withSchema eq_refl)
    as (Hcount & Hschema & _).
  split; [etrans; [exact Hcount | vm_compute; reflexivity] | exact Hschema].
Defined.

(** [t2], an unknown table and [t1]: the two known ones, in that order. *)
Lemma GetSchema_lists_the_known_tables_witness :
  (GetSchema [] tablet200 {| Tables := ["t2"; "nope"; "t1"] |} withSchema).1
  = Return ({| TableDefinitions :=
                 [mkTableDefinition "t2" "t2_schema";
                  mkTableDefinition "t1" "t1_schema"] |}, None).
Proof.
  rewrite (GetSchema_lists_the_known_tables [] tablet200 {| Cell := "cell"; Uid := 200 |}
             {| Tables := ["t2"; "nope"; "t1"] |} withSchema eq_refl).
  - vm_compute. reflexivity.
  - cbn. intros H. repeat (apply elem_of_cons in H as [H | H]; [discriminate |]).
    by apply elem_of_nil in H.
Defined.

(** What follows the wildcard makes no difference. *)
Lemma GetSchema_wildcard_ends_the_request_witness :
  GetSchema (map_to_list (schema withSchema)) tablet200
    {| Tables := ["t1"; "/.*/"; "t2"; "nope"] |} withSchema
  = GetSchema (map_to_list (schema withSchema)) tablet200
      {| Tables := ["t1"; "/.*/"] |} withSchema.
Proof.
  apply (GetSchema_wildcard_ends_the_request (map_to_list (schema withSchema))
           tablet200 {| Cell := "cell"; Uid := 200 |}
           ["t1"] ["t2"; "nope"] withSchema eq_refl); [| reflexivity].
  intros H. apply elem_of_cons in H as [H | H]; [discriminate |].
  by apply elem_of_nil in H.
Defined.

(** With two queries still expected on tablet 200 there is something to
    report; once the tablet has sent both, its queue is empty though still
    in the map, and there is nothing to report. *)
Lemma verifyQueries_is_silent_iff_nothing_waits_witness :
  @verifyQueries string (map_to_list (vrQueries expecting)) <> [] /\
  @verifyQueries string (map_to_list (vrQueries drained)) = [] /\
  vrQueries drained !! 200 = Some [].
Proof.
  split; [| split].
  - intros Hsilent.
    pose proof (proj1 (verifyQueries_is_silent_iff_nothing_waits expecting
                         (map_to_list (vrQueries expecting))
                         (Permutation_refl _)) Hsilent 200) as Hnone.
    vm_compute in Hnone. discriminate.
  - apply (verifyQueries_is_silent_iff_nothing_waits drained
             (map_to_list (vrQueries drained))); [reflexivity |].
    intros uid.
    assert (Hq : vrQueries drained = <[200 := []]> (∅ : gmap Z _))
      by (vm_compute; reflexivity).
    rewrite Hq. destruct (decide (uid = 200)) as [-> | Hne].
    + by rewrite lookup_insert_eq.
    + by rewrite lookup_insert_ne, lookup_empty.
  - vm_compute. reflexivity.
Defined.

(** Three records, two VDiffs. *)
Lemma uuidCount_counts_each_uuid_once_witness :
  VDiffTest.uuidCount ["a"; "b"; "a"] = 2 /\
  VDiffTest.uuidCount ["b"; "a"] = VDiffTest.uuidCount ["a"; "b"; "a"].
Proof.
  destruct (uuidCount_counts_each_uuid_once ["a"; "b"; "a"])
    as (Hcount & _ & _ & Hsame).
  split; [rewrite Hcount; reflexivity |].
  apply Hsame. intros u. rewrite !elem_of_cons, !elem_of_nil. tauto.
Defined.

End ClientWitnesses.
